(** * Operator cost model of the auto-parallel planner

    Shallow embedding of
    [mindspore/ccsrc/parallel/auto_parallel/operator_costmodel.h]:
    the [OperatorCost] base class, its sixteen concrete cost classes, the
    constructor that pre-fills the configuration vectors, and the six cost
    queries, together with the properties the specification states about
    them.  A second part embeds the repeat operator of the dataset pipeline,
    [mindspore/ccsrc/dataset/engine/datasetops/repeat_op.cc].

    C++ [double] is IEEE-754 binary64, embedded with the axiom-free
    [spec_float] of the standard library; [std::vector] is a list indexed
    with stdpp's lookup and insert; [size_t] byte widths are [N]; the
    [int32_t] stage id is a [Z]. *)

From Stdlib Require Import ZArith NArith Lia String.
From Stdlib Require Import Floats.SpecFloat.
From stdpp Require Import base list.

Local Open Scope Z_scope.

(** ** Doubles *)

Module Double.

Definition double : Type := spec_float.

Definition prec : Z := 53.
Definition emax : Z := 1024.

(** [a + b] and [a * b] on doubles, round to nearest even. *)
Definition add (a b : double) : double := SFadd prec emax a b.
Definition mul (a b : double) : double := SFmul prec emax a b.

(** Conversion of an integer to double ([static_cast<double>], and the
    implicit conversion in [result *= vec[i]]). *)
Definition of_Z (z : Z) : double := binary_normalize prec emax z 0 false.
Definition of_N (n : N) : double := of_Z (Z.of_N n).

(** The literal [0.0]. *)
Definition zero : double := S754_zero false.

(** [x] with a zero of either sign replaced by [0.0]. *)
Definition unsigned_zero (x : double) : double :=
  match x with
  | S754_zero _ => zero
  | _ => x
  end.

End Double.

Abbreviation double := Double.double.

(** ** Constants and helpers of the header *)

Definition MAXIMUM_INPUT_NUMBER : nat := 100.
Definition DEFAULT_DATA_TYPE_LENGTH : N := 4%N.

(** [ListProduct]: [result = 1; for i: result *= vec[i]; return result]. *)
Definition ListProduct (vec : list Z) : double :=
  fold_left (fun result x => Double.mul result (Double.of_Z x)) vec (Double.of_Z 1).

(** The number of elements of a tensor of shape [vec], as an integer. *)
Definition element_count (vec : list Z) : Z := fold_left Z.mul vec 1.

(** ** The object *)

(** The concrete classes deriving from [OperatorCost]. *)
Inductive CostClass : Type :=
| MatMulCost
| ActivationCost
| SoftmaxCost
| TmpIdentityCost
| BatchParallelCost
| VirtualDatasetCost
| GeneratorBaseCost
| PReLUCost
| OneHotCost
| SoftmaxCrossEntropyWithLogitsCost
| ReshapeCost
| ArithmeticCost
| L2NormalizeCost
| ReduceMethodCost
| ReduceMeanCost
| GetNextCost.

(** Data members of a cost object.  The first three are the protected
    members of [OperatorCost]; [cross_batch_] is the member that
    [ReduceMethodCost] adds (and [ReduceMeanCost] inherits).  Objects of the
    other classes have no such member: the model carries the field at its
    initial value and none of their methods reads it. *)
Record OperatorCost : Type := mkOperatorCost {
  is_parameter_ : list bool;
  inputs_type_lengths_ : list N;
  outputs_type_lengths_ : list N;
  cross_batch_ : bool
}.

(** One iteration of the constructor's loop: three [push_back]s. *)
Definition ctor_push (self : OperatorCost) : OperatorCost :=
  {| is_parameter_ := is_parameter_ self ++ [false];
     inputs_type_lengths_ := inputs_type_lengths_ self ++ [DEFAULT_DATA_TYPE_LENGTH];
     outputs_type_lengths_ := outputs_type_lengths_ self ++ [DEFAULT_DATA_TYPE_LENGTH];
     cross_batch_ := cross_batch_ self |}.

(** [for (size_t i = 0; i < MAXIMUM_INPUT_NUMBER; ++i) { ... }] *)
Fixpoint ctor_loop (n : nat) (self : OperatorCost) : OperatorCost :=
  match n with
  | O => self
  | S n' => ctor_loop n' (ctor_push self)
  end.

(** [OperatorCost::OperatorCost()], run by the defaulted constructor of every
    derived class; the vectors start empty and [cross_batch_] starts at its
    default member initialiser [false]. *)
Definition OperatorCost_ctor : OperatorCost :=
  ctor_loop MAXIMUM_INPUT_NUMBER
    {| is_parameter_ := []; inputs_type_lengths_ := [];
       outputs_type_lengths_ := []; cross_batch_ := false |}.

(** The two inline accessors. *)
Definition inputs_type_lengths (self : OperatorCost) : list N := inputs_type_lengths_ self.
Definition outputs_type_lengths (self : OperatorCost) : list N := outputs_type_lengths_ self.

(** [void set_cross_batch(bool cb) { cross_batch_ = cb; }] *)
Definition set_cross_batch (cb : bool) (self : OperatorCost) : OperatorCost :=
  {| is_parameter_ := is_parameter_ self;
     inputs_type_lengths_ := inputs_type_lengths_ self;
     outputs_type_lengths_ := outputs_type_lengths_ self;
     cross_batch_ := cb |}.

(** ** Configuration calls

    [set_is_parameter] and [SetInputAndOutputTypeLength] are declared in the
    header and defined in [operator_costmodel.cc]. *)

(** Slot-wise assignment [dst[i] = src[0]; dst[i+1] = src[1]; ...]; a slot
    beyond the end of [dst] is not written. *)
Fixpoint assign_slots {A : Type} (i : nat) (src dst : list A) : list A :=
  match src with
  | [] => dst
  | x :: src' => assign_slots (S i) src' (<[i:=x]> dst)
  end.

(** Modelled from the spec: the body of [OperatorCost::set_is_parameter]
    (in [operator_costmodel.cc]).  "Replaces the is-parameter classification
    for inputs 0..len(flags)-1." *)
Definition set_is_parameter (is_parameter : list bool) (self : OperatorCost) : OperatorCost :=
  {| is_parameter_ := assign_slots 0 is_parameter (is_parameter_ self);
     inputs_type_lengths_ := inputs_type_lengths_ self;
     outputs_type_lengths_ := outputs_type_lengths_ self;
     cross_batch_ := cross_batch_ self |}.

(** Modelled from the spec: the body of
    [OperatorCost::SetInputAndOutputTypeLength] (in
    [operator_costmodel.cc]).  "Replaces byte-width for inputs/outputs
    0..len-1 respectively; untouched slots keep the byte-width default." *)
Definition SetInputAndOutputTypeLength (input_lengths output_lengths : list N)
    (self : OperatorCost) : OperatorCost :=
  {| is_parameter_ := is_parameter_ self;
     inputs_type_lengths_ := assign_slots 0 input_lengths (inputs_type_lengths_ self);
     outputs_type_lengths_ := assign_slots 0 output_lengths (outputs_type_lengths_ self);
     cross_batch_ := cross_batch_ self |}.

(** ** Cost queries *)

(** The four primitives a class may define out of line. *)
Inductive Primitive : Type :=
| ForwardComm
| BackwardComm
| ForwardMemory
| BackwardMemory.

Section Queries.

(** The tensor descriptor type of [parallel/tensor_layout/tensor_info.h];
    the header only passes descriptors through. *)
Variable TensorInfo : Type.

(** A [const] member function taking [(inputs, outputs, stage_id)]. *)
Definition Formula : Type :=
  OperatorCost -> list TensorInfo -> list TensorInfo -> Z -> double.

(** The member functions the header declares without a body; [body C p] is
    the definition of primitive [p] that class [C] itself provides in
    [operator_costmodel.cc].  They are [const]: they read the data members
    and their arguments and return a double. *)
Variable body : CostClass -> Primitive -> Formula.

Definition GetForwardCommCost (C : CostClass) : Formula :=
  fun self inputs outputs stage_id =>
  match C with
  | MatMulCost => body MatMulCost ForwardComm self inputs outputs stage_id
  | ActivationCost => body ActivationCost ForwardComm self inputs outputs stage_id
  | SoftmaxCost => body SoftmaxCost ForwardComm self inputs outputs stage_id
  | TmpIdentityCost => body TmpIdentityCost ForwardComm self inputs outputs stage_id
  | BatchParallelCost => Double.zero
  | VirtualDatasetCost => Double.zero
  | GeneratorBaseCost => Double.zero
  | PReLUCost => body PReLUCost ForwardComm self inputs outputs stage_id
  | OneHotCost => body OneHotCost ForwardComm self inputs outputs stage_id
  | SoftmaxCrossEntropyWithLogitsCost =>
      body SoftmaxCrossEntropyWithLogitsCost ForwardComm self inputs outputs stage_id
  | ReshapeCost => body ReshapeCost ForwardComm self inputs outputs stage_id
  | ArithmeticCost => Double.zero
  | L2NormalizeCost => Double.zero
  | ReduceMethodCost => body ReduceMethodCost ForwardComm self inputs outputs stage_id
  | ReduceMeanCost => (* inherited *)
      body ReduceMethodCost ForwardComm self inputs outputs stage_id
  | GetNextCost => Double.zero
  end.

Definition GetBackwardCommCost (C : CostClass) : Formula :=
  fun self inputs outputs stage_id =>
  match C with
  | MatMulCost => body MatMulCost BackwardComm self inputs outputs stage_id
  | ActivationCost => body ActivationCost BackwardComm self inputs outputs stage_id
  | SoftmaxCost => body SoftmaxCost BackwardComm self inputs outputs stage_id
  | TmpIdentityCost => body TmpIdentityCost BackwardComm self inputs outputs stage_id
  | BatchParallelCost => Double.zero
  | VirtualDatasetCost => Double.zero
  | GeneratorBaseCost => Double.zero
  | PReLUCost => body PReLUCost BackwardComm self inputs outputs stage_id
  | OneHotCost => body OneHotCost BackwardComm self inputs outputs stage_id
  | SoftmaxCrossEntropyWithLogitsCost =>
      body SoftmaxCrossEntropyWithLogitsCost BackwardComm self inputs outputs stage_id
  | ReshapeCost => body ReshapeCost BackwardComm self inputs outputs stage_id
  | ArithmeticCost => body ArithmeticCost BackwardComm self inputs outputs stage_id
  | L2NormalizeCost => body L2NormalizeCost BackwardComm self inputs outputs stage_id
  | ReduceMethodCost => body ReduceMethodCost BackwardComm self inputs outputs stage_id
  | ReduceMeanCost => (* inherited *)
      body ReduceMethodCost BackwardComm self inputs outputs stage_id
  | GetNextCost => Double.zero
  end.

Definition GetForwardMemoryCost (C : CostClass) : Formula :=
  fun self inputs outputs stage_id =>
  match C with
  | MatMulCost => body MatMulCost ForwardMemory self inputs outputs stage_id
  | ActivationCost => body ActivationCost ForwardMemory self inputs outputs stage_id
  | SoftmaxCost => body SoftmaxCost ForwardMemory self inputs outputs stage_id
  | TmpIdentityCost => body TmpIdentityCost ForwardMemory self inputs outputs stage_id
  | BatchParallelCost => body BatchParallelCost ForwardMemory self inputs outputs stage_id
  | VirtualDatasetCost => Double.zero
  | GeneratorBaseCost => Double.zero
  | PReLUCost => body PReLUCost ForwardMemory self inputs outputs stage_id
  | OneHotCost => body OneHotCost ForwardMemory self inputs outputs stage_id
  | SoftmaxCrossEntropyWithLogitsCost =>
      body SoftmaxCrossEntropyWithLogitsCost ForwardMemory self inputs outputs stage_id
  | ReshapeCost => body ReshapeCost ForwardMemory self inputs outputs stage_id
  | ArithmeticCost => body ArithmeticCost ForwardMemory self inputs outputs stage_id
  | L2NormalizeCost => body L2NormalizeCost ForwardMemory self inputs outputs stage_id
  | ReduceMethodCost => body ReduceMethodCost ForwardMemory self inputs outputs stage_id
  | ReduceMeanCost => (* its one override *)
      body ReduceMeanCost ForwardMemory self inputs outputs stage_id
  | GetNextCost => Double.zero
  end.

Definition GetBackwardMemoryCost (C : CostClass) : Formula :=
  fun self inputs outputs stage_id =>
  match C with
  | MatMulCost => body MatMulCost BackwardMemory self inputs outputs stage_id
  | ActivationCost => body ActivationCost BackwardMemory self inputs outputs stage_id
  | SoftmaxCost => body SoftmaxCost BackwardMemory self inputs outputs stage_id
  | TmpIdentityCost => body TmpIdentityCost BackwardMemory self inputs outputs stage_id
  | BatchParallelCost => body BatchParallelCost BackwardMemory self inputs outputs stage_id
  | VirtualDatasetCost => Double.zero
  | GeneratorBaseCost => Double.zero
  | PReLUCost => body PReLUCost BackwardMemory self inputs outputs stage_id
  | OneHotCost => body OneHotCost BackwardMemory self inputs outputs stage_id
  | SoftmaxCrossEntropyWithLogitsCost =>
      body SoftmaxCrossEntropyWithLogitsCost BackwardMemory self inputs outputs stage_id
  | ReshapeCost => body ReshapeCost BackwardMemory self inputs outputs stage_id
  | ArithmeticCost => body ArithmeticCost BackwardMemory self inputs outputs stage_id
  | L2NormalizeCost => body L2NormalizeCost BackwardMemory self inputs outputs stage_id
  | ReduceMethodCost => Double.zero
  | ReduceMeanCost => (* inherited *) Double.zero
  | GetNextCost => Double.zero
  end.

(** [GetCommCost] is written out in every class (and inherited by
    [ReduceMeanCost]) with the same body; the two calls are virtual and so
    resolve in the dynamic class [C]. *)
Definition GetCommCost (C : CostClass) : Formula :=
  fun self inputs outputs stage_id =>
  Double.add (GetForwardCommCost C self inputs outputs stage_id)
             (GetBackwardCommCost C self inputs outputs stage_id).

(** [GetMemoryCost]: the body of [ReduceMethodCost] (inherited by
    [ReduceMeanCost]) adds [GetBackwardCommCost] to the forward memory cost;
    every other class adds [GetBackwardMemoryCost]. *)
Definition GetMemoryCost (C : CostClass) : Formula :=
  fun self inputs outputs stage_id =>
  match C with
  | ReduceMethodCost | ReduceMeanCost =>
      Double.add (GetForwardMemoryCost C self inputs outputs stage_id)
                 (GetBackwardCommCost C self inputs outputs stage_id)
  | _ =>
      Double.add (GetForwardMemoryCost C self inputs outputs stage_id)
                 (GetBackwardMemoryCost C self inputs outputs stage_id)
  end.

End Queries.

Arguments GetForwardCommCost {TensorInfo} body C self inputs outputs stage_id.
Arguments GetBackwardCommCost {TensorInfo} body C self inputs outputs stage_id.
Arguments GetForwardMemoryCost {TensorInfo} body C self inputs outputs stage_id.
Arguments GetBackwardMemoryCost {TensorInfo} body C self inputs outputs stage_id.
Arguments GetCommCost {TensorInfo} body C self inputs outputs stage_id.
Arguments GetMemoryCost {TensorInfo} body C self inputs outputs stage_id.

(** ** The object's interface as a sequence of calls *)

Inductive Query : Type :=
| QGetCommCost
| QGetForwardCommCost
| QGetBackwardCommCost
| QGetMemoryCost
| QGetForwardMemoryCost
| QGetBackwardMemoryCost.

Definition query {TensorInfo : Type} (body : CostClass -> Primitive -> Formula TensorInfo)
    (C : CostClass) (q : Query) : Formula TensorInfo :=
  match q with
  | QGetCommCost => GetCommCost body C
  | QGetForwardCommCost => GetForwardCommCost body C
  | QGetBackwardCommCost => GetBackwardCommCost body C
  | QGetMemoryCost => GetMemoryCost body C
  | QGetForwardMemoryCost => GetForwardMemoryCost body C
  | QGetBackwardMemoryCost => GetBackwardMemoryCost body C
  end.

(** The arguments of one cost query. *)
Record QueryCall (TensorInfo : Type) : Type := mkQueryCall {
  qc_query : Query;
  qc_inputs : list TensorInfo;
  qc_outputs : list TensorInfo;
  qc_stage_id : Z
}.
Arguments mkQueryCall {TensorInfo} _ _ _ _.
Arguments qc_query {TensorInfo} _.
Arguments qc_inputs {TensorInfo} _.
Arguments qc_outputs {TensorInfo} _.
Arguments qc_stage_id {TensorInfo} _.

Inductive Call (TensorInfo : Type) : Type :=
| Call_set_is_parameter (is_parameter : list bool)
| Call_SetInputAndOutputTypeLength (input_lengths output_lengths : list N)
| Call_set_cross_batch (cb : bool)
| Call_query (qc : QueryCall TensorInfo).
Arguments Call_set_is_parameter {TensorInfo} _.
Arguments Call_SetInputAndOutputTypeLength {TensorInfo} _ _.
Arguments Call_set_cross_batch {TensorInfo} _.
Arguments Call_query {TensorInfo} _.

(** Only [ReduceMethodCost] and its subclass declare [set_cross_batch]. *)
Definition has_set_cross_batch (C : CostClass) : bool :=
  match C with
  | ReduceMethodCost | ReduceMeanCost => true
  | _ => false
  end.

(** One call on an object of dynamic class [C]: the object afterwards and the
    value returned, if the call returns one.  The queries are [const] member
    functions; a [set_cross_batch] on a class that has no such member
    function is no call at all and leaves the object as it is. *)
Definition step {TensorInfo : Type} (body : CostClass -> Primitive -> Formula TensorInfo)
    (C : CostClass) (self : OperatorCost) (c : Call TensorInfo)
    : OperatorCost * option double :=
  match c with
  | Call_set_is_parameter flags => (set_is_parameter flags self, None)
  | Call_SetInputAndOutputTypeLength ins outs =>
      (SetInputAndOutputTypeLength ins outs self, None)
  | Call_set_cross_batch cb =>
      (if has_set_cross_batch C then set_cross_batch cb self else self, None)
  | Call_query qc =>
      (self, Some (query body C (qc_query qc) self (qc_inputs qc) (qc_outputs qc)
                         (qc_stage_id qc)))
  end.

(** A sequence of calls: the final object and the values returned, in order. *)
Fixpoint run {TensorInfo : Type} (body : CostClass -> Primitive -> Formula TensorInfo)
    (C : CostClass) (self : OperatorCost) (cs : list (Call TensorInfo))
    : OperatorCost * list (option double) :=
  match cs with
  | [] => (self, [])
  | c :: cs' =>
      let '(self', r) := step body C self c in
      let '(self'', rs) := run body C self' cs' in
      (self'', r :: rs)
  end.

Definition is_set_cross_batch {TensorInfo : Type} (c : Call TensorInfo) : bool :=
  match c with
  | Call_set_cross_batch _ => true
  | _ => false
  end.

(** The argument of the last [set_cross_batch] among the calls [cs], or
    [init] if there is none. *)
Fixpoint last_set_cross_batch {TensorInfo : Type} (cs : list (Call TensorInfo))
    (init : bool) : bool :=
  match cs with
  | [] => init
  | Call_set_cross_batch cb :: cs' => last_set_cross_batch cs' cb
  | _ :: cs' => last_set_cross_batch cs' init
  end.

(** ** Formulas of [operator_costmodel.cc] evaluated on concrete descriptors *)

Module SpecFormulas.

(** Modelled from the spec: the tensor descriptor of
    [parallel/tensor_layout/tensor_info.h], "one tensor's logical shape and
    its shard/layout under a candidate strategy"; the cost model derives an
    element count from it. *)
Record TensorInfo : Type := mkTensorInfo {
  shape : list Z;
  slice_shape : list Z
}.

(** The byte width configured for slot [i], "falling back to the 4-byte
    default". *)
Definition type_length (lengths : list N) (i : nat) : N :=
  default DEFAULT_DATA_TYPE_LENGTH (lengths !! i).

(** The per-device element count of a tensor "scaled by the configured
    per-element byte width". *)
Definition slot_bytes (lengths : list N) (i : nat) (t : TensorInfo) : double :=
  Double.mul (ListProduct (slice_shape t)) (Double.of_N (type_length lengths i)).

(** [for i: cost += bytes of tensors[i]], starting at slot [i]. *)
Fixpoint add_slot_bytes (lengths : list N) (i : nat) (tensors : list TensorInfo)
    (cost : double) : double :=
  match tensors with
  | [] => cost
  | t :: tensors' =>
      add_slot_bytes lengths (S i) tensors' (Double.add cost (slot_bytes lengths i t))
  end.

(** Modelled from the spec: the body of
    [BatchParallelCost::GetForwardMemoryCost].  For the batch-only
    pass-through "memory cost is computed normally": "derived from the
    element counts of the relevant tensors scaled by the configured
    per-element byte width". *)
Definition BatchParallelCost_GetForwardMemoryCost : Formula TensorInfo :=
  fun self inputs _ _ =>
  add_slot_bytes (inputs_type_lengths_ self) 0 inputs Double.zero.

(** Modelled from the spec: the body of
    [BatchParallelCost::GetBackwardMemoryCost].  The spec names no
    gradient-pass footprint for the pass-through; a variant "implements only
    the formulas that differ from 0". *)
Definition BatchParallelCost_GetBackwardMemoryCost : Formula TensorInfo :=
  fun _ _ _ _ => Double.zero.

(** Modelled from the spec: the body of
    [ReduceMethodCost::GetBackwardCommCost].  The cross-batch flag is "read
    by the backward-communication formula"; a sharding that needs an
    exchange "contributes a cost proportional to the sharded tensor's size,
    otherwise contributes 0", and toggling the flag changes the value. *)
Definition ReduceMethodCost_GetBackwardCommCost : Formula TensorInfo :=
  fun self inputs _ _ =>
  if cross_batch_ self then
    match inputs !! 0%nat with
    | Some input0 => slot_bytes (inputs_type_lengths_ self) 0 input0
    | None => Double.zero
    end
  else Double.zero.

(** Modelled from the spec: the body of
    [ReduceMethodCost::GetForwardMemoryCost], a memory formula: element
    counts scaled by byte widths, not reading the cross-batch flag. *)
Definition ReduceMethodCost_GetForwardMemoryCost : Formula TensorInfo :=
  fun self inputs _ _ =>
  add_slot_bytes (inputs_type_lengths_ self) 0 inputs Double.zero.

(** The out-of-line bodies, with the four above in place of whatever
    [body] holds for them; every other formula stays that of [body]. *)
Definition with_spec (body : CostClass -> Primitive -> Formula TensorInfo)
    : CostClass -> Primitive -> Formula TensorInfo :=
  fun C p =>
  match C, p with
  | BatchParallelCost, ForwardMemory => BatchParallelCost_GetForwardMemoryCost
  | BatchParallelCost, BackwardMemory => BatchParallelCost_GetBackwardMemoryCost
  | ReduceMethodCost, BackwardComm => ReduceMethodCost_GetBackwardCommCost
  | ReduceMethodCost, ForwardMemory => ReduceMethodCost_GetForwardMemoryCost
  | _, _ => body C p
  end.

(** A tensor whose per-device slice has shape [dims]. *)
Definition sliced (dims : list Z) : TensorInfo :=
  {| shape := dims; slice_shape := dims |}.

End SpecFormulas.

(** * The repeat operator of the dataset pipeline

    Embedding of
    [mindspore/ccsrc/dataset/engine/datasetops/repeat_op.cc].  The operator
    runs inlined: its parent pulls buffers through [GetNextBuffer], which
    pulls from the first child and swallows the end-of-epoch buffers until
    the requested number of epochs has gone by. *)

Module RepeatOp.

(** What [RETURN_STATUS_UNEXPECTED(msg)] builds is [Err (Unexpected msg)];
    [Failed] stands for any other failure a collaborator hands back. *)
Inductive Error : Type :=
| Unexpected (err_msg : string)
| Failed (code : nat).

Inductive Status : Type :=
| OK
| Err (e : Error).

Definition IsOk (s : Status) : bool :=
  match s with
  | OK => true
  | Err _ => false
  end.

(** The one operator state this file names, and the others. *)
Inductive OpState : Type :=
| kDeOpIdle
| kDeOpOther (n : nat).

Definition is_idle (st : OpState) : bool :=
  match st with
  | kDeOpIdle => true
  | kDeOpOther _ => false
  end.

(** The one control flag this file sets. *)
Inductive ControlFlag : Type :=
| kDeOpLastRepeat.

(** A [DataBuffer], as far as the operator looks at it: its end-of-epoch and
    end-of-file marks. *)
Record DataBuffer : Type := mkDataBuffer {
  eoe : bool;
  eof : bool;
  buffer_id : nat
}.

(** The object behind a [DatasetOp] pointer. *)
Definition OpId : Type := nat.

(** [int32_t] arithmetic, wrapping in two's complement. *)
Definition int32_wrap (z : Z) : Z := (z + 2 ^ 31) mod 2 ^ 32 - 2 ^ 31.

(** The collaborators of the operator are not defined in this file.  A
    [World] holds what each of them answers, call after call, and what they
    have been told so far:
    - [child_output]: the results of the calls [child_[0]->GetNextBuffer],
      an error or the buffer handed over;
    - [reset_output]: the results of the calls [DatasetOp::ResetSubtree],
      the status and the [state_] it writes, if it writes one;
    - [prepare_output]: the results of [PipelineOp::PrepareNodeAction];
    - [repeat_stack]: the results of [tree_->PopFromRepeatStack], [None]
      for [nullptr];
    - [control_flags]: the calls of [set_control_flag] made so far, oldest
      first.
    A call whose list of answers is used up has no result. *)
Record World : Type := mkWorld {
  child_output : list (Error + DataBuffer);
  reset_output : list (Status * option OpState);
  prepare_output : list Status;
  repeat_stack : list (option OpId);
  control_flags : list (OpId * ControlFlag)
}.

(** Data members: [state_] and [child_] of the base class, and the three
    members of [RepeatOp]. *)
Record RepeatOp : Type := mkRepeatOp {
  state_ : OpState;
  child_ : list OpId;
  max_repeats_ : Z;
  repeat_count_ : Z;
  leaf_ops_ : list OpId
}.

Record Builder : Type := mkBuilder {
  build_max_repeats_ : Z
}.

(** [leaf_op->set_control_flag(flag)] *)
Definition set_control_flag (leaf_op : OpId) (flag : ControlFlag) (w : World) : World :=
  {| child_output := child_output w;
     reset_output := reset_output w;
     prepare_output := prepare_output w;
     repeat_stack := repeat_stack w;
     control_flags := control_flags w ++ [(leaf_op, flag)] |}.

(** [for (i = 0; i < leaf_ops_.size(); i++) leaf_ops_[i]->set_control_flag(flag)] *)
Fixpoint set_control_flags (leaf_ops : list OpId) (flag : ControlFlag) (w : World) : World :=
  match leaf_ops with
  | [] => w
  | leaf_op :: rest => set_control_flags rest flag (set_control_flag leaf_op flag w)
  end.

(** [child_[0]->GetNextBuffer(&buf, worker_id, true)] *)
Definition child_GetNextBuffer (w : World) : option ((Error + DataBuffer) * World) :=
  match child_output w with
  | [] => None
  | r :: rest =>
      Some (r, {| child_output := rest;
                  reset_output := reset_output w;
                  prepare_output := prepare_output w;
                  repeat_stack := repeat_stack w;
                  control_flags := control_flags w |})
  end.

(** [DatasetOp::ResetSubtree()] *)
Definition ResetSubtree (self : RepeatOp) (w : World) : option (Status * RepeatOp * World) :=
  match reset_output w with
  | [] => None
  | (s, st) :: rest =>
      Some (s,
            {| state_ := default (state_ self) st;
               child_ := child_ self;
               max_repeats_ := max_repeats_ self;
               repeat_count_ := repeat_count_ self;
               leaf_ops_ := leaf_ops_ self |},
            {| child_output := child_output w;
               reset_output := rest;
               prepare_output := prepare_output w;
               repeat_stack := repeat_stack w;
               control_flags := control_flags w |})
  end.

(** [PipelineOp::PrepareNodeAction()] *)
Definition PipelineOp_PrepareNodeAction (w : World) : option (Status * World) :=
  match prepare_output w with
  | [] => None
  | s :: rest =>
      Some (s, {| child_output := child_output w;
                  reset_output := reset_output w;
                  prepare_output := rest;
                  repeat_stack := repeat_stack w;
                  control_flags := control_flags w |})
  end.

(** [tree_->PopFromRepeatStack()] *)
Definition PopFromRepeatStack (w : World) : option (option OpId * World) :=
  match repeat_stack w with
  | [] => None
  | r :: rest =>
      Some (r, {| child_output := child_output w;
                  reset_output := reset_output w;
                  prepare_output := prepare_output w;
                  repeat_stack := rest;
                  control_flags := control_flags w |})
  end.

Section Methods.

(** The constant [kInfiniteRepeat] of [repeat_op.h]. *)
Variable kInfiniteRepeat : Z.

(** The [state_] in which the base-class constructor leaves a new operator. *)
Variable initial_state : OpState.

(** [RepeatOp::Builder::Builder(int32_t count)] *)
Definition Builder_ctor (count : Z) : Builder := {| build_max_repeats_ := count |}.

(** [RepeatOp::Builder::SanityCheck] *)
Definition SanityCheck (b : Builder) : Status :=
  if (build_max_repeats_ b <? kInfiniteRepeat) || (build_max_repeats_ b =? 0)
  then Err (Unexpected "Repeat count must be > 0 or -1.")
  else OK.

(** [RepeatOp::RepeatOp(int32_t count)] *)
Definition RepeatOp_ctor (count : Z) : RepeatOp :=
  {| state_ := initial_state;
     child_ := [];
     max_repeats_ := count;
     repeat_count_ := 0;
     leaf_ops_ := [] |}.

(** [RepeatOp::Builder::Build]: the status, and what [*ptr] holds
    afterwards. *)
Definition Build (b : Builder) (ptr : option RepeatOp) : Status * option RepeatOp :=
  match SanityCheck b with
  | OK => (OK, Some (RepeatOp_ctor (build_max_repeats_ b)))
  | Err e => (Err e, ptr)
  end.

(** The loop of [RepeatOp::PrepareNodeAction], entered with the first popped
    pointer; each turn ends by popping again, so the recursion follows the
    answers of the stack. *)
Fixpoint PrepareNodeAction_while (pops : nat) (leaf_op : option OpId)
    (self : RepeatOp) (w : World) : option (RepeatOp * World) :=
  match leaf_op with
  | None => Some (self, w)
  | Some op =>
      match pops with
      | O => None
      | S pops' =>
          let self1 :=
            {| state_ := state_ self;
               child_ := child_ self;
               max_repeats_ := max_repeats_ self;
               repeat_count_ := repeat_count_ self;
               leaf_ops_ := leaf_ops_ self ++ [op] |} in
          let w1 :=
            if max_repeats_ self =? 1 then set_control_flag op kDeOpLastRepeat w else w in
          match PopFromRepeatStack w1 with
          | None => None
          | Some (next, w2) => PrepareNodeAction_while pops' next self1 w2
          end
      end
  end.

(** [RepeatOp::PrepareNodeAction] *)
Definition PrepareNodeAction (self : RepeatOp) (w : World)
    : option (Status * RepeatOp * World) :=
  match PipelineOp_PrepareNodeAction w with
  | None => None
  | Some (Err e, w1) => Some (Err e, self, w1)
  | Some (OK, w1) =>
      match PopFromRepeatStack w1 with
      | None => None
      | Some (leaf_op, w2) =>
          match PrepareNodeAction_while (length (repeat_stack w2)) leaf_op self w2 with
          | None => None
          | Some (self', w') => Some (OK, self', w')
          end
      end
  end.

(** [RepeatOp::EoeReceived] *)
Definition EoeReceived (self : RepeatOp) (w : World) : option (Status * RepeatOp * World) :=
  let self1 :=
    {| state_ := state_ self;
       child_ := child_ self;
       max_repeats_ := max_repeats_ self;
       repeat_count_ := int32_wrap (repeat_count_ self + 1);
       leaf_ops_ := leaf_ops_ self |} in
  let w1 :=
    if negb (max_repeats_ self1 =? kInfiniteRepeat)
       && (repeat_count_ self1 =? int32_wrap (max_repeats_ self1 - 1))
    then set_control_flags (leaf_ops_ self1) kDeOpLastRepeat w
    else w in
  if repeat_count_ self1 =? max_repeats_ self1 then
    Some (OK,
          {| state_ := kDeOpIdle;
             child_ := child_ self1;
             max_repeats_ := max_repeats_ self1;
             repeat_count_ := repeat_count_ self1;
             leaf_ops_ := leaf_ops_ self1 |},
          w1)
  else ResetSubtree self1 w1.

(** [RepeatOp::EofReceived]: logs and returns. *)
Definition EofReceived (self : RepeatOp) (w : World) : Status * RepeatOp * World :=
  (OK, self, w).

(** [RepeatOp::operator()] *)
Definition functor_call : Status :=
  Err (Unexpected "Logic error. RepeatOp is an inlined operator.").

(** The [while (buf->eoe())] loop of [GetNextBuffer] and what follows it.
    The result is the status, the buffer moved into [*p_buffer] if one was,
    and the operator and the world afterwards.  Every turn of the loop ends
    by pulling from the child, so [pulls], the number of answers the child
    still has, bounds the turns. *)
Fixpoint GetNextBuffer_while (pulls : nat) (buf : DataBuffer) (self : RepeatOp) (w : World)
    : option (Status * option DataBuffer * RepeatOp * World) :=
  if eoe buf then
    match EoeReceived self w with
    | None => None
    | Some (Err e, self1, w1) => Some (Err e, None, self1, w1)
    | Some (OK, self1, w1) =>
        if is_idle (state_ self1) then Some (OK, Some buf, self1, w1)
        else
          match pulls with
          | O => None
          | S pulls' =>
              match child_GetNextBuffer w1 with
              | None => None
              | Some (inl e, w2) => Some (Err e, None, self1, w2)
              | Some (inr buf', w2) => GetNextBuffer_while pulls' buf' self1 w2
              end
          end
    end
  else if eof buf then
    match EofReceived self w with
    | (Err e, self1, w1) => Some (Err e, None, self1, w1)
    | (OK, self1, w1) => Some (OK, Some buf, self1, w1)
    end
  else Some (OK, Some buf, self, w).

(** [RepeatOp::GetNextBuffer].  The arguments [worker_id], which is only
    passed on and logged, and [retry_if_eoe], which the body does not use,
    are left out. *)
Definition GetNextBuffer (self : RepeatOp) (w : World)
    : option (Status * option DataBuffer * RepeatOp * World) :=
  match child_ self with
  | [] => Some (Err (Unexpected "RepeatOp can't be the leaf node."), None, self, w)
  | _ :: _ =>
      match child_GetNextBuffer w with
      | None => None
      | Some (inl e, w1) => Some (Err e, None, self, w1)
      | Some (inr buf, w1) => GetNextBuffer_while (length (child_output w1)) buf self w1
      end
  end.

(** The parent pulling [k] buffers, one [GetNextBuffer] call after the
    other: the buffers it receives, if every call returns [OK]. *)
Fixpoint pull (k : nat) (self : RepeatOp) (w : World)
    : option (list DataBuffer * RepeatOp * World) :=
  match k with
  | O => Some ([], self, w)
  | S k' =>
      match GetNextBuffer self w with
      | Some (OK, Some buf, self1, w1) =>
          match pull k' self1 w1 with
          | Some (bufs, self', w') => Some (buf :: bufs, self', w')
          | None => None
          end
      | _ => None
      end
  end.

End Methods.

(** A [ResetSubtree] that succeeds and does not leave the operator idle. *)
Definition reset_ok (r : Status * option OpState) : Prop :=
  r.1 = OK ∧ r.2 ≠ Some kDeOpIdle.

(** Whether the repeat count, going from [before] up to [after], has passed
    the value [max_repeats - 1] at which [EoeReceived] flags the leaves of a
    finite repeat. *)
Definition flagged_between (kInfiniteRepeat max_repeats before after : Z) : bool :=
  negb (max_repeats =? kInfiniteRepeat)
  && (before + 1 <=? max_repeats - 1)
  && (max_repeats - 1 <=? after).

(** What a repeat is to show of the child's buffers when [swallow] ends of
    epoch are still to be passed over: the buffers in order, without the
    end-of-epoch buffers, up to the end-of-epoch buffer that completes the
    last epoch, which is shown and ends the stream. *)
Fixpoint repeated_stream (swallow : nat) (bufs : list DataBuffer) : list DataBuffer :=
  match bufs with
  | [] => []
  | b :: bs =>
      if eoe b then
        match swallow with
        | O => [b]
        | S swallow' => repeated_stream swallow' bs
        end
      else b :: repeated_stream swallow bs
  end.

End RepeatOp.

(** Closing a side condition of a concrete instance. *)
Ltac concrete :=
  cbn;
  first [ reflexivity | discriminate | lia | (left; lia) | (right; lia)
        | repeat constructor; cbn; first [discriminate | congruence] ].

(** * Properties *)

Local Open Scope nat_scope.

(** ** The constructor *)

Section Constructor.

Lemma ctor_loop_is_parameter n self :
  is_parameter_ (ctor_loop n self) = is_parameter_ self ++ replicate n false.
Proof.
  revert self; induction n as [|n IH]; intros self; simpl.
  - by rewrite app_nil_r.
  - rewrite IH; simpl. by rewrite <- app_assoc.
Qed.

Lemma ctor_loop_inputs n self :
  inputs_type_lengths_ (ctor_loop n self)
  = inputs_type_lengths_ self ++ replicate n DEFAULT_DATA_TYPE_LENGTH.
Proof.
  revert self; induction n as [|n IH]; intros self; simpl.
  - by rewrite app_nil_r.
  - rewrite IH; simpl. by rewrite <- app_assoc.
Qed.

Lemma ctor_loop_outputs n self :
  outputs_type_lengths_ (ctor_loop n self)
  = outputs_type_lengths_ self ++ replicate n DEFAULT_DATA_TYPE_LENGTH.
Proof.
  revert self; induction n as [|n IH]; intros self; simpl.
  - by rewrite app_nil_r.
  - rewrite IH; simpl. by rewrite <- app_assoc.
Qed.

Lemma ctor_loop_cross_batch n self :
  cross_batch_ (ctor_loop n self) = cross_batch_ self.
Proof.
  revert self; induction n as [|n IH]; intros self; simpl; [done|].
  by rewrite IH.
Qed.

Lemma ctor_inputs :
  inputs_type_lengths_ OperatorCost_ctor
  = replicate MAXIMUM_INPUT_NUMBER DEFAULT_DATA_TYPE_LENGTH.
Proof. unfold OperatorCost_ctor. by rewrite ctor_loop_inputs. Qed.

Lemma ctor_outputs :
  outputs_type_lengths_ OperatorCost_ctor
  = replicate MAXIMUM_INPUT_NUMBER DEFAULT_DATA_TYPE_LENGTH.
Proof. unfold OperatorCost_ctor. by rewrite ctor_loop_outputs. Qed.

Lemma ctor_cross_batch : cross_batch_ OperatorCost_ctor = false.
Proof. unfold OperatorCost_ctor. by rewrite ctor_loop_cross_batch. Qed.

Lemma lookup_defaults (n i : nat) (x : N) :
  replicate n x !! i = if decide (i < n) then Some x else None.
Proof.
  case_decide as Hi.
  - by apply lookup_replicate_2.
  - apply lookup_replicate_None. lia.
Qed.

End Constructor.

(** C4. A freshly constructed cost object, of whatever class, holds 100 input
    slots and 100 output slots, and the byte width it reports is 4 in every
    one of them (and there is no slot beyond the hundredth). *)
Theorem fresh_instance_byte_width_is_4 :
  length (inputs_type_lengths OperatorCost_ctor) = 100
  ∧ length (outputs_type_lengths OperatorCost_ctor) = 100
  ∧ Forall (λ w, w = 4%N) (inputs_type_lengths OperatorCost_ctor)
  ∧ Forall (λ w, w = 4%N) (outputs_type_lengths OperatorCost_ctor)
  ∧ ∀ i : nat,
      inputs_type_lengths OperatorCost_ctor !! i
        = (if decide (i < 100) then Some 4%N else None)
      ∧ outputs_type_lengths OperatorCost_ctor !! i
        = (if decide (i < 100) then Some 4%N else None).
Proof.
  unfold inputs_type_lengths, outputs_type_lengths.
  rewrite ctor_inputs, ctor_outputs.
  unfold MAXIMUM_INPUT_NUMBER, DEFAULT_DATA_TYPE_LENGTH.
  rewrite !length_replicate.
  repeat split; try (apply Forall_replicate; reflexivity);
    apply lookup_defaults.
Qed.

(** ** Slot-wise configuration *)

Section AssignSlots.

Context {A : Type}.
Implicit Types src dst : list A.

Lemma length_assign_slots i src dst :
  length (assign_slots i src dst) = length dst.
Proof.
  revert i dst; induction src as [|x src IH]; intros i dst; simpl; [done|].
  by rewrite IH, length_insert.
Qed.

(** Slots before the first assigned index are not touched. *)
Lemma assign_slots_lookup_lt i j src dst :
  j < i → assign_slots i src dst !! j = dst !! j.
Proof.
  revert i dst; induction src as [|x src IH]; intros i dst Hj; simpl; [done|].
  rewrite IH by lia. apply list_lookup_insert_ne. lia.
Qed.

(** Slots past the last assigned index are not touched. *)
Lemma assign_slots_lookup_ge i j src dst :
  i + length src ≤ j → assign_slots i src dst !! j = dst !! j.
Proof.
  revert i dst; induction src as [|x src IH]; intros i dst Hj; simpl in *; [done|].
  rewrite IH by lia. apply list_lookup_insert_ne. lia.
Qed.

(** An assigned slot that exists holds the supplied value. *)
Lemma assign_slots_lookup_in i j src dst :
  i ≤ j < i + length src → j < length dst →
  assign_slots i src dst !! j = src !! (j - i).
Proof.
  revert i dst; induction src as [|x src IH]; intros i dst Hj Hl; simpl in *; [lia|].
  destruct (decide (j = i)) as [->|Hne].
  - rewrite assign_slots_lookup_lt by lia.
    rewrite list_lookup_insert_eq by done.
    by rewrite Nat.sub_diag.
  - rewrite IH by (rewrite ?length_insert; lia).
    replace (j - i) with (S (j - S i)) by lia. done.
Qed.

End AssignSlots.

(** C7. On a fresh object, [SetInputAndOutputTypeLength] with vectors shorter
    than the slot count makes every covered slot report the supplied byte
    width and leaves every trailing slot at the default 4. *)
Theorem SetInputAndOutputTypeLength_short_vectors
    (input_lengths output_lengths : list N) :
  length input_lengths < MAXIMUM_INPUT_NUMBER →
  length output_lengths < MAXIMUM_INPUT_NUMBER →
  let self := SetInputAndOutputTypeLength input_lengths output_lengths OperatorCost_ctor in
  (∀ i, i < length input_lengths →
        inputs_type_lengths self !! i = input_lengths !! i)
  ∧ (∀ i, length input_lengths ≤ i < MAXIMUM_INPUT_NUMBER →
          inputs_type_lengths self !! i = Some 4%N)
  ∧ (∀ i, i < length output_lengths →
          outputs_type_lengths self !! i = output_lengths !! i)
  ∧ (∀ i, length output_lengths ≤ i < MAXIMUM_INPUT_NUMBER →
          outputs_type_lengths self !! i = Some 4%N)
  ∧ length (inputs_type_lengths self) = MAXIMUM_INPUT_NUMBER
  ∧ length (outputs_type_lengths self) = MAXIMUM_INPUT_NUMBER.
Proof.
  intros Hin Hout self.
  unfold self, inputs_type_lengths, outputs_type_lengths, SetInputAndOutputTypeLength.
  cbn [inputs_type_lengths_ outputs_type_lengths_].
  rewrite ctor_inputs, ctor_outputs.
  repeat split.
  - intros i Hi. rewrite assign_slots_lookup_in by (rewrite ?length_replicate; lia).
    by rewrite Nat.sub_0_r.
  - intros i Hi. rewrite assign_slots_lookup_ge by lia.
    apply lookup_replicate_2. lia.
  - intros i Hi. rewrite assign_slots_lookup_in by (rewrite ?length_replicate; lia).
    by rewrite Nat.sub_0_r.
  - intros i Hi. rewrite assign_slots_lookup_ge by lia.
    apply lookup_replicate_2. lia.
  - by rewrite length_assign_slots, length_replicate.
  - by rewrite length_assign_slots, length_replicate.
Qed.

Lemma SetInputAndOutputTypeLength_short_vectors_witness :
  length [2%N; 8%N] < MAXIMUM_INPUT_NUMBER
  ∧ length [1%N] < MAXIMUM_INPUT_NUMBER
  ∧ let self := SetInputAndOutputTypeLength [2%N; 8%N] [1%N] OperatorCost_ctor in
    inputs_type_lengths self !! 1 = Some 8%N
    ∧ inputs_type_lengths self !! 2 = Some 4%N
    ∧ outputs_type_lengths self !! 0 = Some 1%N
    ∧ outputs_type_lengths self !! 99 = Some 4%N.
Proof.
  assert (H2 : length [2%N; 8%N] < MAXIMUM_INPUT_NUMBER)
    by (unfold MAXIMUM_INPUT_NUMBER; simpl; lia).
  assert (H1 : length [1%N] < MAXIMUM_INPUT_NUMBER)
    by (unfold MAXIMUM_INPUT_NUMBER; simpl; lia).
  split; [exact H2|]. split; [exact H1|].
  intros self.
  destruct (SetInputAndOutputTypeLength_short_vectors [2%N; 8%N] [1%N] H2 H1)
    as (Hi & Hi' & Ho & Ho' & _).
  split; [apply (Hi 1); simpl; lia|].
  split; [apply (Hi' 2); unfold MAXIMUM_INPUT_NUMBER; simpl; lia|].
  split; [apply (Ho 0); simpl; lia|].
  apply (Ho' 99); unfold MAXIMUM_INPUT_NUMBER; simpl; lia.
Defined.

(** ** The cost queries, for any out-of-line bodies *)

Section QueryProperties.

Context {TensorInfo : Type}.
Variable body : CostClass -> Primitive -> Formula TensorInfo.
Implicit Types (C : CostClass) (self : OperatorCost).
Implicit Types (inputs outputs : list TensorInfo) (stage_id : Z).

(** The communication total is the sum of its two parts in all sixteen
    classes. *)
Lemma GetCommCost_additive C self inputs outputs stage_id :
  GetCommCost body C self inputs outputs stage_id
  = Double.add (GetForwardCommCost body C self inputs outputs stage_id)
               (GetBackwardCommCost body C self inputs outputs stage_id).
Proof. reflexivity. Qed.

(** The memory total is the sum of the two memory parts in the fourteen
    classes other than the reductions. *)
Lemma GetMemoryCost_additive C self inputs outputs stage_id :
  has_set_cross_batch C = false →
  GetMemoryCost body C self inputs outputs stage_id
  = Double.add (GetForwardMemoryCost body C self inputs outputs stage_id)
               (GetBackwardMemoryCost body C self inputs outputs stage_id).
Proof. destruct C; simpl; intros H; first [discriminate H | reflexivity]. Qed.

(** In the reductions the memory total adds the backward communication
    cost. *)
Lemma GetMemoryCost_reduce C self inputs outputs stage_id :
  has_set_cross_batch C = true →
  GetMemoryCost body C self inputs outputs stage_id
  = Double.add (GetForwardMemoryCost body C self inputs outputs stage_id)
               (GetBackwardCommCost body C self inputs outputs stage_id).
Proof. destruct C; simpl; intros H; first [discriminate H | reflexivity]. Qed.

(** No call other than [set_cross_batch] writes [cross_batch_]. *)
Lemma step_cross_batch C self (c : Call TensorInfo) :
  is_set_cross_batch c = false →
  cross_batch_ (fst (step body C self c)) = cross_batch_ self.
Proof. destruct c; simpl; intros H; first [discriminate H | reflexivity]. Qed.

Lemma run_cross_batch C self (cs : list (Call TensorInfo)) :
  forallb (λ c, negb (is_set_cross_batch c)) cs = true →
  cross_batch_ (fst (run body C self cs)) = cross_batch_ self.
Proof.
  revert self; induction cs as [|c cs IH]; intros self H; [reflexivity|].
  simpl in H. apply andb_prop in H as [Hc Hcs].
  apply negb_true_iff in Hc.
  cbn [run]. pose proof (step_cross_batch C self c Hc) as Hstep.
  destruct (step body C self c) as [self' r]; simpl in Hstep.
  specialize (IH self' Hcs).
  destruct (run body C self' cs) as [self'' rs]; simpl in *. congruence.
Qed.

End QueryProperties.

(** C5. In each of the three data-source classes the four cost primitives
    return [0.0], whatever the descriptors, the stage, the configuration and
    the out-of-line bodies of the other classes are. *)
Theorem source_variants_cost_zero {TensorInfo : Type}
    (body : CostClass -> Primitive -> Formula TensorInfo) :
  Forall (λ C, ∀ self (inputs outputs : list TensorInfo) (stage_id : Z),
            GetForwardCommCost body C self inputs outputs stage_id = Double.zero
            ∧ GetBackwardCommCost body C self inputs outputs stage_id = Double.zero
            ∧ GetForwardMemoryCost body C self inputs outputs stage_id = Double.zero
            ∧ GetBackwardMemoryCost body C self inputs outputs stage_id = Double.zero)
         [VirtualDatasetCost; GeneratorBaseCost; GetNextCost].
Proof. repeat constructor. Qed.

(** C9. [GetBackwardMemoryCost] of [ReduceMethodCost], and of
    [ReduceMeanCost] which inherits it, returns [0.0] for every
    configuration (the cross-batch flag included), every descriptor sequence
    and every stage. *)
Theorem ReduceMethodCost_GetBackwardMemoryCost_zero {TensorInfo : Type}
    (body : CostClass -> Primitive -> Formula TensorInfo)
    (self : OperatorCost) (inputs outputs : list TensorInfo) (stage_id : Z) :
  GetBackwardMemoryCost body ReduceMethodCost self inputs outputs stage_id = Double.zero
  ∧ GetBackwardMemoryCost body ReduceMeanCost self inputs outputs stage_id = Double.zero.
Proof. split; reflexivity. Qed.

(** C3. [ReduceMeanCost] and [ReduceMethodCost] objects with the same
    configuration agree on forward communication, backward communication and
    backward memory cost for all arguments; the forward memory cost is
    dispatched to [ReduceMeanCost]'s own body, so it agrees only if the two
    bodies do, and there are bodies on which it differs. *)
Theorem ReduceMeanCost_overrides_forward_memory_only {TensorInfo : Type} :
  (∀ (body : CostClass -> Primitive -> Formula TensorInfo)
     (self : OperatorCost) (inputs outputs : list TensorInfo) (stage_id : Z),
      GetForwardCommCost body ReduceMeanCost self inputs outputs stage_id
        = GetForwardCommCost body ReduceMethodCost self inputs outputs stage_id
      ∧ GetBackwardCommCost body ReduceMeanCost self inputs outputs stage_id
        = GetBackwardCommCost body ReduceMethodCost self inputs outputs stage_id
      ∧ GetBackwardMemoryCost body ReduceMeanCost self inputs outputs stage_id
        = GetBackwardMemoryCost body ReduceMethodCost self inputs outputs stage_id
      ∧ GetForwardMemoryCost body ReduceMeanCost self inputs outputs stage_id
        = body ReduceMeanCost ForwardMemory self inputs outputs stage_id
      ∧ GetForwardMemoryCost body ReduceMethodCost self inputs outputs stage_id
        = body ReduceMethodCost ForwardMemory self inputs outputs stage_id)
  ∧ (∃ (body : CostClass -> Primitive -> Formula TensorInfo)
       (self : OperatorCost) (inputs outputs : list TensorInfo) (stage_id : Z),
      GetForwardMemoryCost body ReduceMeanCost self inputs outputs stage_id
        ≠ GetForwardMemoryCost body ReduceMethodCost self inputs outputs stage_id).
Proof.
  split.
  - intros; repeat split.
  - exists (λ C _ _ _ _ _,
             match C with ReduceMeanCost => Double.of_Z 1 | _ => Double.zero end).
    exists OperatorCost_ctor, [], [], 0%Z.
    cbn [GetForwardMemoryCost]. discriminate.
Qed.

(** C10. A fresh object has [cross_batch_ = false], and the flag stays false
    through any calls other than [set_cross_batch]; the first
    [set_cross_batch cb] then makes it [cb]. *)
Theorem cross_batch_defaults_to_false {TensorInfo : Type}
    (body : CostClass -> Primitive -> Formula TensorInfo)
    (C : CostClass) (cs : list (Call TensorInfo)) :
  forallb (λ c, negb (is_set_cross_batch c)) cs = true →
  cross_batch_ OperatorCost_ctor = false
  ∧ cross_batch_ (fst (run body C OperatorCost_ctor cs)) = false
  ∧ set_cross_batch false (fst (run body C OperatorCost_ctor cs))
    = fst (run body C OperatorCost_ctor cs)
  ∧ ∀ cb, cross_batch_ (set_cross_batch cb (fst (run body C OperatorCost_ctor cs))) = cb.
Proof.
  intros Hcs.
  pose proof (run_cross_batch body C OperatorCost_ctor cs Hcs) as Hrun.
  rewrite ctor_cross_batch in Hrun.
  split; [apply ctor_cross_batch|]. split; [exact Hrun|]. split; [|reflexivity].
  destruct (fst (run body C OperatorCost_ctor cs)) as [p i o cb]; simpl in *.
  by rewrite Hrun.
Qed.

(** A reduction object that is configured and queried, but on which
    [set_cross_batch] is never called. *)
Lemma cross_batch_defaults_to_false_witness :
  let body : CostClass -> Primitive -> Formula SpecFormulas.TensorInfo :=
    SpecFormulas.with_spec (λ _ _ _ _ _ _, Double.zero) in
  let cs : list (Call SpecFormulas.TensorInfo) :=
    [Call_set_is_parameter [true; false];
     Call_query (mkQueryCall QGetMemoryCost [SpecFormulas.sliced [2; 2]%Z]
                             [SpecFormulas.sliced [2]%Z] 0%Z);
     Call_SetInputAndOutputTypeLength [2%N] [2%N]] in
  forallb (λ c, negb (is_set_cross_batch c)) cs = true
  ∧ cross_batch_ (fst (run body ReduceMethodCost OperatorCost_ctor cs)) = false.
Proof.
  intros body cs.
  assert (Hcs : forallb (λ c, negb (is_set_cross_batch c)) cs = true) by reflexivity.
  split; [exact Hcs|].
  exact (proj1 (proj2 (cross_batch_defaults_to_false body ReduceMethodCost cs Hcs))).
Defined.

(** ** The queries on the formulas of the specification *)

Section OnSpecFormulas.

Import SpecFormulas.

Variable body : CostClass -> Primitive -> Formula TensorInfo.

(** The two memory primitives of [ReduceMethodCost] do not read the flag. *)
Lemma reduce_memory_primitives_ignore_cross_batch cb self inputs outputs stage_id :
  GetForwardMemoryCost (with_spec body) ReduceMethodCost
      (set_cross_batch cb self) inputs outputs stage_id
  = GetForwardMemoryCost (with_spec body) ReduceMethodCost self inputs outputs stage_id
  ∧ GetBackwardMemoryCost (with_spec body) ReduceMethodCost
      (set_cross_batch cb self) inputs outputs stage_id
  = GetBackwardMemoryCost (with_spec body) ReduceMethodCost self inputs outputs stage_id.
Proof. split; reflexivity. Qed.

(** The backward communication cost is where the flag shows. *)
Lemma reduce_backward_comm_reads_cross_batch :
  GetBackwardCommCost (with_spec body) ReduceMethodCost
      (set_cross_batch false OperatorCost_ctor) [sliced [2; 2]%Z] [sliced [2]%Z] 0%Z
  = Double.zero
  ∧ GetBackwardCommCost (with_spec body) ReduceMethodCost
      (set_cross_batch true OperatorCost_ctor) [sliced [2; 2]%Z] [sliced [2]%Z] 0%Z
  = Double.of_Z 16.
Proof. split; vm_compute; reflexivity. Qed.

End OnSpecFormulas.

(** C6. [BatchParallelCost] has forward and backward communication cost
    [0.0] for all descriptors, stages and configurations; its memory cost on
    a fresh object differs between a 2x2 slice (16 bytes) and a 4x2 slice
    (32 bytes). *)
Theorem BatchParallelCost_comm_zero_memory_varies :
  (∀ (TensorInfo : Type) (body : CostClass -> Primitive -> Formula TensorInfo)
     (self : OperatorCost) (inputs outputs : list TensorInfo) (stage_id : Z),
      GetForwardCommCost body BatchParallelCost self inputs outputs stage_id = Double.zero
      ∧ GetBackwardCommCost body BatchParallelCost self inputs outputs stage_id
        = Double.zero)
  ∧ (∀ (body : CostClass -> Primitive -> Formula SpecFormulas.TensorInfo) (stage_id : Z),
      ∃ inputs1 outputs1 inputs2 outputs2 : list SpecFormulas.TensorInfo,
        (ListProduct ∘ SpecFormulas.slice_shape) <$> inputs1
          ≠ (ListProduct ∘ SpecFormulas.slice_shape) <$> inputs2
        ∧ GetMemoryCost (SpecFormulas.with_spec body) BatchParallelCost
            OperatorCost_ctor inputs1 outputs1 stage_id = Double.of_Z 16
        ∧ GetMemoryCost (SpecFormulas.with_spec body) BatchParallelCost
            OperatorCost_ctor inputs2 outputs2 stage_id = Double.of_Z 32
        ∧ GetMemoryCost (SpecFormulas.with_spec body) BatchParallelCost
            OperatorCost_ctor inputs1 outputs1 stage_id
          ≠ GetMemoryCost (SpecFormulas.with_spec body) BatchParallelCost
              OperatorCost_ctor inputs2 outputs2 stage_id).
Proof.
  split; [intros; split; reflexivity|].
  intros body stage_id.
  exists [SpecFormulas.sliced [2; 2]%Z], [SpecFormulas.sliced [2; 2]%Z],
         [SpecFormulas.sliced [4; 2]%Z], [SpecFormulas.sliced [4; 2]%Z].
  repeat split; vm_compute; first [reflexivity | discriminate].
Qed.

(** C1. The memory total of [ReduceMethodCost] (and of [ReduceMeanCost]) is
    the forward memory cost plus the backward COMMUNICATION cost.  On a
    cross-batch reduction of one 2x2 slice it returns 32, where the sum of
    the forward and backward memory costs is 16. *)
Theorem ReduceMethodCost_GetMemoryCost_adds_backward_comm :
  (∀ (TensorInfo : Type) (body : CostClass -> Primitive -> Formula TensorInfo)
     (self : OperatorCost) (inputs outputs : list TensorInfo) (stage_id : Z),
      GetMemoryCost body ReduceMethodCost self inputs outputs stage_id
      = Double.add (GetForwardMemoryCost body ReduceMethodCost self inputs outputs stage_id)
                   (GetBackwardCommCost body ReduceMethodCost self inputs outputs stage_id)
      ∧ GetMemoryCost body ReduceMeanCost self inputs outputs stage_id
      = Double.add (GetForwardMemoryCost body ReduceMeanCost self inputs outputs stage_id)
                   (GetBackwardCommCost body ReduceMeanCost self inputs outputs stage_id))
  ∧ (∀ body : CostClass -> Primitive -> Formula SpecFormulas.TensorInfo,
      let self := set_cross_batch true OperatorCost_ctor in
      let inputs := [SpecFormulas.sliced [2; 2]%Z] in
      let outputs := [SpecFormulas.sliced [2]%Z] in
      GetMemoryCost (SpecFormulas.with_spec body) ReduceMethodCost self inputs outputs 0%Z
      = Double.of_Z 32
      ∧ Double.add
          (GetForwardMemoryCost (SpecFormulas.with_spec body) ReduceMethodCost
             self inputs outputs 0%Z)
          (GetBackwardMemoryCost (SpecFormulas.with_spec body) ReduceMethodCost
             self inputs outputs 0%Z)
        = Double.of_Z 16
      ∧ GetCommCost (SpecFormulas.with_spec body) ReduceMethodCost self inputs outputs 0%Z
        = Double.add
            (GetForwardCommCost (SpecFormulas.with_spec body) ReduceMethodCost
               self inputs outputs 0%Z)
            (GetBackwardCommCost (SpecFormulas.with_spec body) ReduceMethodCost
               self inputs outputs 0%Z)).
Proof.
  split; [intros; split; reflexivity|].
  intros body self inputs outputs.
  split; [vm_compute; reflexivity|]. split; [vm_compute; reflexivity|reflexivity].
Qed.

(** C2. Two [ReduceMethodCost] objects that differ only in the cross-batch
    flag, queried with the same descriptors and stage, return the same
    forward memory cost (16) and the same backward memory cost (0), but
    [GetMemoryCost] returns 16 with the flag off and 32 with it on. *)
Theorem ReduceMethodCost_GetMemoryCost_reads_cross_batch
    (body : CostClass -> Primitive -> Formula SpecFormulas.TensorInfo) :
  let off := set_cross_batch false OperatorCost_ctor in
  let on := set_cross_batch true OperatorCost_ctor in
  let inputs := [SpecFormulas.sliced [2; 2]%Z] in
  let outputs := [SpecFormulas.sliced [2]%Z] in
  GetForwardMemoryCost (SpecFormulas.with_spec body) ReduceMethodCost off inputs outputs 0%Z
  = GetForwardMemoryCost (SpecFormulas.with_spec body) ReduceMethodCost on inputs outputs 0%Z
  ∧ GetBackwardMemoryCost (SpecFormulas.with_spec body) ReduceMethodCost off inputs outputs 0%Z
  = GetBackwardMemoryCost (SpecFormulas.with_spec body) ReduceMethodCost on inputs outputs 0%Z
  ∧ GetMemoryCost (SpecFormulas.with_spec body) ReduceMethodCost off inputs outputs 0%Z
  = Double.of_Z 16
  ∧ GetMemoryCost (SpecFormulas.with_spec body) ReduceMethodCost on inputs outputs 0%Z
  = Double.of_Z 32
  ∧ GetMemoryCost (SpecFormulas.with_spec body) ReduceMethodCost off inputs outputs 0%Z
  ≠ GetMemoryCost (SpecFormulas.with_spec body) ReduceMethodCost on inputs outputs 0%Z.
Proof.
  intros off on inputs outputs.
  repeat split; vm_compute; first [reflexivity | discriminate].
Qed.

(** * Further properties of the cost model *)

(** X1. The constructor also fills [is_parameter_]: a fresh object has 100
    slots there, all [false], so the three configuration vectors have the
    same length. *)
Theorem fresh_instance_is_parameter_all_false :
  length (is_parameter_ OperatorCost_ctor) = 100
  ∧ length (is_parameter_ OperatorCost_ctor) = length (inputs_type_lengths OperatorCost_ctor)
  ∧ length (is_parameter_ OperatorCost_ctor) = length (outputs_type_lengths OperatorCost_ctor)
  ∧ ∀ i : nat,
      is_parameter_ OperatorCost_ctor !! i = (if decide (i < 100) then Some false else None).
Proof.
  unfold inputs_type_lengths, outputs_type_lengths.
  rewrite ctor_inputs, ctor_outputs.
  unfold OperatorCost_ctor. rewrite ctor_loop_is_parameter.
  cbn [is_parameter_ app]. unfold MAXIMUM_INPUT_NUMBER.
  rewrite !length_replicate. repeat split.
  intros i. case_decide as Hi.
  - by apply lookup_replicate_2.
  - apply lookup_replicate_None. lia.
Qed.

(** [0.0 + x] is [x], except that it turns [-0.0] into [0.0]. *)
Lemma add_zero_l (x : double) :
  Double.add Double.zero x = Double.unsigned_zero x.
Proof. by destruct x as [[]|[]| |[] m e]. Qed.

(** [x + 0.0] likewise. *)
Lemma add_zero_r (x : double) :
  Double.add x Double.zero = Double.unsigned_zero x.
Proof. by destruct x as [[]|[]| |[] m e]. Qed.

(** X2. The totals of the three data-source classes are [0.0] as well, and so
    is the communication total of [BatchParallelCost]: the sum of two
    literal zeros is the positive zero, for all arguments, configurations
    and out-of-line bodies. *)
Theorem zero_cost_totals {TensorInfo : Type}
    (body : CostClass -> Primitive -> Formula TensorInfo)
    (self : OperatorCost) (inputs outputs : list TensorInfo) (stage_id : Z) :
  Forall (λ C, GetCommCost body C self inputs outputs stage_id = Double.zero
               ∧ GetMemoryCost body C self inputs outputs stage_id = Double.zero)
         [VirtualDatasetCost; GeneratorBaseCost; GetNextCost]
  ∧ GetCommCost body BatchParallelCost self inputs outputs stage_id = Double.zero.
Proof. split; [repeat constructor|reflexivity]. Qed.

(** X3. [ArithmeticCost] and [L2NormalizeCost] have forward communication
    cost [0.0], so their communication total is their backward
    communication cost, with a negative zero turned into the positive
    one. *)
Theorem forward_free_comm_total {TensorInfo : Type}
    (body : CostClass -> Primitive -> Formula TensorInfo)
    (self : OperatorCost) (inputs outputs : list TensorInfo) (stage_id : Z) :
  Forall (λ C, GetForwardCommCost body C self inputs outputs stage_id = Double.zero
               ∧ GetCommCost body C self inputs outputs stage_id
                 = Double.unsigned_zero
                     (GetBackwardCommCost body C self inputs outputs stage_id))
         [ArithmeticCost; L2NormalizeCost].
Proof.
  apply Forall_cons; split; [split; [reflexivity|apply add_zero_l]|].
  apply Forall_cons; split; [split; [reflexivity|apply add_zero_l]|].
  apply Forall_nil; exact I.
Qed.

(** X4. Where the backward communication cost of a reduction is [0.0], its
    memory total is the sum of its forward and backward memory costs, as in
    the other classes. *)
Theorem reduce_memory_total_when_backward_comm_zero {TensorInfo : Type}
    (body : CostClass -> Primitive -> Formula TensorInfo)
    (C : CostClass) (self : OperatorCost) (inputs outputs : list TensorInfo) (stage_id : Z) :
  has_set_cross_batch C = true →
  GetBackwardCommCost body C self inputs outputs stage_id = Double.zero →
  GetMemoryCost body C self inputs outputs stage_id
  = Double.add (GetForwardMemoryCost body C self inputs outputs stage_id)
               (GetBackwardMemoryCost body C self inputs outputs stage_id).
Proof.
  intros HC Hzero. rewrite GetMemoryCost_reduce by done. rewrite Hzero.
  destruct C; try discriminate HC; reflexivity.
Qed.

Lemma reduce_memory_total_when_backward_comm_zero_witness :
  let body : CostClass -> Primitive -> Formula SpecFormulas.TensorInfo :=
    SpecFormulas.with_spec (λ _ _ _ _ _ _, Double.zero) in
  let self := set_cross_batch false OperatorCost_ctor in
  let inputs := [SpecFormulas.sliced [2; 2]%Z] in
  has_set_cross_batch ReduceMethodCost = true
  ∧ GetBackwardCommCost body ReduceMethodCost self inputs [] 0%Z = Double.zero
  ∧ GetMemoryCost body ReduceMethodCost self inputs [] 0%Z
    = Double.add (GetForwardMemoryCost body ReduceMethodCost self inputs [] 0%Z)
                 (GetBackwardMemoryCost body ReduceMethodCost self inputs [] 0%Z).
Proof.
  intros body self inputs.
  assert (HC : has_set_cross_batch ReduceMethodCost = true) by reflexivity.
  assert (Hz : GetBackwardCommCost body ReduceMethodCost self inputs [] 0%Z = Double.zero)
    by reflexivity.
  split; [exact HC|]. split; [exact Hz|].
  exact (reduce_memory_total_when_backward_comm_zero
           body ReduceMethodCost self inputs [] 0%Z HC Hz).
Defined.

(** X5. [ReduceMeanCost] and [ReduceMethodCost] objects with the same
    configuration return the same communication total, and the same memory
    total wherever the two forward memory bodies agree. *)
Theorem ReduceMeanCost_totals {TensorInfo : Type}
    (body : CostClass -> Primitive -> Formula TensorInfo)
    (self : OperatorCost) (inputs outputs : list TensorInfo) (stage_id : Z) :
  GetCommCost body ReduceMeanCost self inputs outputs stage_id
  = GetCommCost body ReduceMethodCost self inputs outputs stage_id
  ∧ (body ReduceMeanCost ForwardMemory self inputs outputs stage_id
     = body ReduceMethodCost ForwardMemory self inputs outputs stage_id →
     GetMemoryCost body ReduceMeanCost self inputs outputs stage_id
     = GetMemoryCost body ReduceMethodCost self inputs outputs stage_id).
Proof.
  split; [reflexivity|].
  intros H. unfold GetMemoryCost. cbn [GetForwardMemoryCost GetBackwardCommCost].
  by rewrite H.
Qed.

Lemma ReduceMeanCost_totals_witness :
  let body : CostClass -> Primitive -> Formula SpecFormulas.TensorInfo :=
    λ _ _ _ _ _ _, Double.of_Z 8 in
  body ReduceMeanCost ForwardMemory OperatorCost_ctor [] [] 0%Z
  = body ReduceMethodCost ForwardMemory OperatorCost_ctor [] [] 0%Z
  ∧ GetMemoryCost body ReduceMeanCost OperatorCost_ctor [] [] 0%Z
    = GetMemoryCost body ReduceMethodCost OperatorCost_ctor [] [] 0%Z.
Proof.
  intros body. split; [reflexivity|].
  exact (proj2 (ReduceMeanCost_totals body OperatorCost_ctor [] [] 0%Z) eq_refl).
Defined.

(** X6. A communication total reads the communication bodies only: two sets
    of out-of-line bodies that agree on the forward and backward
    communication formulas give the same [GetCommCost] in every class. *)
Theorem comm_total_ignores_memory_bodies {TensorInfo : Type}
    (body1 body2 : CostClass -> Primitive -> Formula TensorInfo) :
  (∀ C, body1 C ForwardComm = body2 C ForwardComm) →
  (∀ C, body1 C BackwardComm = body2 C BackwardComm) →
  ∀ C self inputs outputs stage_id,
    GetCommCost body1 C self inputs outputs stage_id
    = GetCommCost body2 C self inputs outputs stage_id.
Proof.
  intros Hf Hb C self inputs outputs stage_id. unfold GetCommCost.
  f_equal; destruct C; cbn [GetForwardCommCost GetBackwardCommCost];
    rewrite ?Hf, ?Hb; reflexivity.
Qed.

Lemma comm_total_ignores_memory_bodies_witness :
  let body1 : CostClass -> Primitive -> Formula unit :=
    λ _ p, match p with
           | ForwardMemory | BackwardMemory => λ _ _ _ _, Double.of_Z 1
           | _ => λ _ _ _ _, Double.of_Z 2
           end in
  let body2 : CostClass -> Primitive -> Formula unit :=
    λ _ p, match p with
           | ForwardMemory | BackwardMemory => λ _ _ _ _, Double.of_Z 64
           | _ => λ _ _ _ _, Double.of_Z 2
           end in
  GetCommCost body1 MatMulCost OperatorCost_ctor [] [] 0%Z
  = GetCommCost body2 MatMulCost OperatorCost_ctor [] [] 0%Z.
Proof.
  intros body1 body2.
  apply (comm_total_ignores_memory_bodies body1 body2); reflexivity.
Defined.

(** X7. A memory total reads the memory bodies only in the fourteen classes
    other than the reductions: there, bodies that agree on the forward and
    backward memory formulas give the same [GetMemoryCost]. *)
Theorem memory_total_ignores_comm_bodies {TensorInfo : Type}
    (body1 body2 : CostClass -> Primitive -> Formula TensorInfo) :
  (∀ C, body1 C ForwardMemory = body2 C ForwardMemory) →
  (∀ C, body1 C BackwardMemory = body2 C BackwardMemory) →
  ∀ C self inputs outputs stage_id,
    has_set_cross_batch C = false →
    GetMemoryCost body1 C self inputs outputs stage_id
    = GetMemoryCost body2 C self inputs outputs stage_id.
Proof.
  intros Hf Hb C self inputs outputs stage_id HC.
  rewrite !GetMemoryCost_additive by done.
  f_equal; destruct C; cbn [GetForwardMemoryCost GetBackwardMemoryCost];
    rewrite ?Hf, ?Hb; reflexivity.
Qed.

Lemma memory_total_ignores_comm_bodies_witness :
  let body1 : CostClass -> Primitive -> Formula unit :=
    λ _ p, match p with
           | ForwardComm | BackwardComm => λ _ _ _ _, Double.of_Z 1
           | _ => λ _ _ _ _, Double.of_Z 2
           end in
  let body2 : CostClass -> Primitive -> Formula unit :=
    λ _ p, match p with
           | ForwardComm | BackwardComm => λ _ _ _ _, Double.of_Z 64
           | _ => λ _ _ _ _, Double.of_Z 2
           end in
  GetMemoryCost body1 MatMulCost OperatorCost_ctor [] [] 0%Z
  = GetMemoryCost body2 MatMulCost OperatorCost_ctor [] [] 0%Z.
Proof.
  intros body1 body2.
  apply (memory_total_ignores_comm_bodies body1 body2); reflexivity.
Defined.

(** X18. [set_cross_batch] overwrites: after any sequence of calls on a
    reduction object the flag is the argument of the last [set_cross_batch]
    among them, or what it was before if there is none; on the other
    classes, which have no such member function, it never changes. *)
Theorem cross_batch_is_last_set {TensorInfo : Type}
    (body : CostClass -> Primitive -> Formula TensorInfo)
    (C : CostClass) (self : OperatorCost) (cs : list (Call TensorInfo)) :
  cross_batch_ (fst (run body C self cs))
  = if has_set_cross_batch C
    then last_set_cross_batch cs (cross_batch_ self)
    else cross_batch_ self.
Proof.
  revert self; induction cs as [|c cs IH]; intros self.
  - cbn. by destruct (has_set_cross_batch C).
  - cbn [run]. destruct (step body C self c) as [self1 r] eqn:Hstep.
    specialize (IH self1). destruct (run body C self1 cs) as [self2 rs].
    cbn [fst] in *. rewrite IH.
    destruct c; cbn in Hstep; injection Hstep as <- _; cbn [last_set_cross_batch];
      try reflexivity.
    by destruct (has_set_cross_batch C).
Qed.

(** * [ListProduct] is exact on shapes *)

Module ListProductFacts.

Local Open Scope Z_scope.

Lemma iter_pos_nat {A : Type} (f : A → A) (p : positive) (x : A) :
  SpecFloat.iter_pos f p x = Nat.iter (Pos.to_nat p) f x.
Proof.
  revert x; induction p as [p IH|p IH|]; intros x; cbn [SpecFloat.iter_pos].
  - rewrite !IH, Pos2Nat.inj_xI, <- Nat.iter_succ_r, <- Nat.iter_add.
    f_equal. lia.
  - rewrite !IH, Pos2Nat.inj_xO, <- Nat.iter_add. f_equal. lia.
  - reflexivity.
Qed.

Lemma digits2_pos_log2 (p : positive) : Zpos (digits2_pos p) = Z.log2 (Zpos p) + 1.
Proof.
  assert (H : forall q, digits2_pos q = Pos.size q).
  { induction q as [q IH|q IH|]; cbn; rewrite ?IH; reflexivity. }
  rewrite H. destruct p; cbn; lia.
Qed.

Lemma shift_value (k : nat) (q : positive) :
  Zpos (Nat.iter k xO q) = Zpos q * 2 ^ Z.of_nat k.
Proof.
  induction k as [|k IH].
  - cbn. lia.
  - rewrite Nat.iter_succ, Pos2Z.inj_xO, IH, Nat2Z.inj_succ, Z.pow_succ_r by lia. lia.
Qed.

Lemma shr_aligned (k : nat) (q : positive) :
  Nat.iter k shr_1 (Build_shr_record (Zpos (Nat.iter k xO q)) false false)
  = Build_shr_record (Zpos q) false false.
Proof.
  induction k as [|k IH]; [reflexivity|].
  rewrite Nat.iter_succ_r, Nat.iter_succ. cbn [shr_1 orb]. apply IH.
Qed.

(** Rounding a mantissa that is a 53-bit number [q] followed by [k] zero bits
    is exact. *)
Lemma round_aux_aligned (s : bool) (m q : positive) (k : nat) (e : Z) :
  Zpos m = Zpos q * 2 ^ Z.of_nat k →
  Z.log2 (Zpos q) = 52 →
  - 1074 <= e + Z.of_nat k <= 971 →
  binary_round_aux Double.prec Double.emax s (Zpos m) e loc_Exact
  = S754_finite s q (e + Z.of_nat k).
Proof.
  intros Hm Hq He.
  rewrite <- shift_value in Hm. injection Hm as ->.
  unfold binary_round_aux, shr_fexp. cbn [Zdigits2 shr_record_of_loc].
  rewrite digits2_pos_log2, shift_value, Z.log2_mul_pow2, Hq by lia.
  unfold fexp, emin, Double.prec, Double.emax.
  rewrite Z.max_l by lia.
  replace (Z.of_nat k + 52 + 1 + e - 53 - e) with (Z.of_nat k) by lia.
  assert (Hshr : shr (Build_shr_record (Zpos (Nat.iter k xO q)) false false) e (Z.of_nat k)
                 = (Build_shr_record (Zpos q) false false, e + Z.of_nat k)).
  { destruct k as [|k]; [unfold shr; cbn [Z.of_nat]; by rewrite Z.add_0_r|].
    change (Z.of_nat (S k)) with (Zpos (Pos.of_succ_nat k)). unfold shr.
    by rewrite iter_pos_nat, SuccNat2Pos.id_succ, shr_aligned. }
  rewrite <- (shift_value k q), Hshr.
  cbn [shr_m loc_of_shr_record round_nearest_even Zdigits2 shr_record_of_loc].
  rewrite digits2_pos_log2, Hq.
  rewrite Z.max_l by lia.
  replace (52 + 1 + (e + Z.of_nat k) - 53 - (e + Z.of_nat k)) with 0 by lia.
  cbn [shr shr_m].
  destruct (Z.leb_spec (e + Z.of_nat k) (1024 - 53)); [reflexivity|lia].
Qed.

Lemma of_Z_pos (c : positive) :
  Z.log2 (Zpos c) <= 52 →
  Double.of_Z (Zpos c)
  = S754_finite false (Nat.iter (Z.to_nat (52 - Z.log2 (Zpos c))) xO c)
                (Z.log2 (Zpos c) - 52).
Proof.
  intros HL. pose proof (Z.log2_nonneg (Zpos c)) as H0.
  unfold Double.of_Z, binary_normalize, binary_round, shl_align.
  assert (Hf : fexp Double.prec Double.emax (Zpos (digits2_pos c) + 0)
               = Z.log2 (Zpos c) - 52).
  { rewrite digits2_pos_log2. unfold fexp, emin, Double.prec, Double.emax. lia. }
  rewrite Hf.
  destruct (Z.log2 (Zpos c) - 52 - 0) as [|d|d] eqn:Hd; [|lia|].
  - replace (52 - Z.log2 (Zpos c)) with 0 by lia. cbn [Z.to_nat Nat.iter].
    rewrite (round_aux_aligned false c c 0 0); [f_equal; lia| |lia|lia].
    cbn. lia.
  - assert (Hk : Z.to_nat (52 - Z.log2 (Zpos c)) = Pos.to_nat d) by lia.
    rewrite Hk, Pos2Nat.inj_iter.
    change (nat_rect (fun _ => positive) c (fun _ => xO) (Pos.to_nat d))
      with (Nat.iter (Pos.to_nat d) xO c).
    set (m := Nat.iter (Pos.to_nat d) xO c).
    rewrite (round_aux_aligned false m m 0); [f_equal; lia| | |lia].
    + cbn. lia.
    + unfold m. rewrite shift_value, Z.log2_mul_pow2 by lia. lia.
Qed.

Lemma mul_exact (a b : positive) :
  Zpos a * Zpos b < 2 ^ 53 →
  Double.mul (Double.of_Z (Zpos a)) (Double.of_Z (Zpos b))
  = Double.of_Z (Zpos (a * b)).
Proof.
  intros Hab.
  pose proof (Z.log2_nonneg (Zpos a)) as Ha0.
  pose proof (Z.log2_nonneg (Zpos b)) as Hb0.
  assert (Hc : Z.log2 (Zpos (a * b)) <= 52).
  { enough (Z.log2 (Zpos (a * b)) < 53) by lia.
    apply Z.log2_lt_pow2; rewrite ?Pos2Z.inj_mul; lia. }
  pose proof (Z.log2_mul_below (Zpos a) (Zpos b) ltac:(lia) ltac:(lia)) as Hbelow.
  rewrite <- Pos2Z.inj_mul in Hbelow.
  rewrite !of_Z_pos by lia.
  unfold Double.mul, SFmul. cbn [xorb].
  set (La := Z.log2 (Zpos a)) in *. set (Lb := Z.log2 (Zpos b)) in *.
  set (Lc := Z.log2 (Zpos (a * b))) in *.
  rewrite (round_aux_aligned false _ (Nat.iter (Z.to_nat (52 - Lc)) xO (a * b)%positive)
             (Z.to_nat (52 + Lc - La - Lb))).
  - f_equal. lia.
  - rewrite Pos2Z.inj_mul, !shift_value, !Z2Nat.id by lia.
    rewrite Pos2Z.inj_mul.
    replace (52 + Lc - La - Lb) with ((52 - La) + (52 - Lb) - (52 - Lc)) by lia.
    transitivity (Zpos a * Zpos b * (2 ^ (52 - La) * 2 ^ (52 - Lb))); [ring|].
    rewrite <- Z.pow_add_r by lia. symmetry.
    transitivity (Zpos a * Zpos b
                  * (2 ^ (52 - Lc) * 2 ^ (52 - La + (52 - Lb) - (52 - Lc)))); [ring|].
    rewrite <- Z.pow_add_r by lia. do 2 f_equal. lia.
  - rewrite shift_value, Z.log2_mul_pow2 by lia. fold Lc. lia.
  - lia.
Qed.

Lemma fold_left_mul_ge (vec : list Z) (acc : Z) :
  Forall (λ x, 0 < x) vec → 0 < acc → acc <= fold_left Z.mul vec acc.
Proof.
  intros H; revert acc; induction H as [|x vec Hx _ IH]; intros acc Hacc; cbn; [lia|].
  etransitivity; [|apply IH; nia]. nia.
Qed.

Lemma ListProduct_exact_from (vec : list Z) :
  Forall (λ x, 0 < x) vec →
  forall acc, 0 < acc → fold_left Z.mul vec acc < 2 ^ 53 →
  fold_left (fun result x => Double.mul result (Double.of_Z x)) vec (Double.of_Z acc)
  = Double.of_Z (fold_left Z.mul vec acc).
Proof.
  induction 1 as [|x vec Hx Hvec IH]; intros acc Hacc Hbound; cbn; [reflexivity|].
  cbn in Hbound.
  pose proof (fold_left_mul_ge vec (acc * x) Hvec ltac:(nia)) as Hge.
  destruct acc as [|a|a]; [lia| |lia]. destruct x as [|b|b]; [lia| |lia].
  rewrite mul_exact by (rewrite <- Pos2Z.inj_mul in *; lia).
  apply IH; [lia|exact Hbound].
Qed.

(** X17. On a vector of positive integers whose product is below 2^53 (a
    shape with fewer than 2^53 elements), [ListProduct] returns exactly that
    product: no multiplication of the loop rounds.  In particular the empty
    vector gives 1. *)
Theorem ListProduct_exact (vec : list Z) :
  Forall (λ x, 0 < x) vec →
  element_count vec < 2 ^ 53 →
  ListProduct vec = Double.of_Z (element_count vec).
Proof.
  intros Hpos Hbound. unfold ListProduct, element_count.
  apply ListProduct_exact_from; [exact Hpos|lia|exact Hbound].
Qed.

Lemma ListProduct_exact_witness :
  ListProduct [32; 224; 224; 3] = Double.of_Z 4816896.
Proof.
  apply (ListProduct_exact [32; 224; 224; 3]).
  - repeat constructor.
  - reflexivity.
Defined.

End ListProductFacts.

(** * Properties of the repeat operator *)

Module RepeatOpFacts.

Import RepeatOp.

Local Open Scope Z_scope.

(** The [set_control_flag] calls that flag every operator of [leaf_ops]. *)
Lemma set_control_flags_log leaf_ops flag w :
  set_control_flags leaf_ops flag w
  = {| child_output := child_output w;
       reset_output := reset_output w;
       prepare_output := prepare_output w;
       repeat_stack := repeat_stack w;
       control_flags := control_flags w ++ ((λ op, (op, flag)) <$> leaf_ops) |}.
Proof.
  revert w; induction leaf_ops as [|op ops IH]; intros w.
  - destruct w; cbn. by rewrite app_nil_r.
  - cbn [set_control_flags]. rewrite IH. cbn. by rewrite <- app_assoc.
Qed.

Lemma int32_wrap_small z : - 2 ^ 31 ≤ z < 2 ^ 31 → int32_wrap z = z.
Proof. intros H. unfold int32_wrap. rewrite Z.mod_small; lia. Qed.

Section Facts.

Variable kInfiniteRepeat : Z.
Variable initial_state : OpState.

(** An end of epoch that does not complete the count: the counter goes up
    by one, the leaves are flagged if this was the last but one epoch, and
    the subtree is reset. *)
Lemma EoeReceived_continue self w r rest_r :
  reset_output w = r :: rest_r →
  - 2 ^ 31 ≤ repeat_count_ self → repeat_count_ self + 1 < 2 ^ 31 →
  - 2 ^ 31 < max_repeats_ self < 2 ^ 31 →
  repeat_count_ self + 1 ≠ max_repeats_ self →
  EoeReceived kInfiniteRepeat self w
  = Some (r.1,
          {| state_ := default (state_ self) r.2;
             child_ := child_ self;
             max_repeats_ := max_repeats_ self;
             repeat_count_ := repeat_count_ self + 1;
             leaf_ops_ := leaf_ops_ self |},
          {| child_output := child_output w;
             reset_output := rest_r;
             prepare_output := prepare_output w;
             repeat_stack := repeat_stack w;
             control_flags :=
               control_flags w
               ++ (if negb (max_repeats_ self =? kInfiniteRepeat)
                      && (repeat_count_ self + 1 =? max_repeats_ self - 1)
                   then (λ op, (op, kDeOpLastRepeat)) <$> leaf_ops_ self
                   else []) |}).
Proof.
  intros Hr Hlo Hhi Hn Hne. unfold EoeReceived. cbn [max_repeats_ repeat_count_ leaf_ops_].
  rewrite !int32_wrap_small by lia.
  destruct (Z.eqb_spec (repeat_count_ self + 1) (max_repeats_ self)) as [|_]; [done|].
  destruct (negb (max_repeats_ self =? kInfiniteRepeat)
            && (repeat_count_ self + 1 =? max_repeats_ self - 1)).
  - rewrite set_control_flags_log. unfold ResetSubtree. cbn. rewrite Hr.
    by destruct r.
  - unfold ResetSubtree. rewrite Hr. destruct r. cbn. by rewrite app_nil_r.
Qed.

(** The end of epoch that completes the count: the operator goes idle and
    nobody else is called. *)
Lemma EoeReceived_last self w :
  - 2 ^ 31 ≤ repeat_count_ self → repeat_count_ self + 1 < 2 ^ 31 →
  - 2 ^ 31 < max_repeats_ self →
  repeat_count_ self + 1 = max_repeats_ self →
  EoeReceived kInfiniteRepeat self w
  = Some (OK,
          {| state_ := kDeOpIdle;
             child_ := child_ self;
             max_repeats_ := max_repeats_ self;
             repeat_count_ := max_repeats_ self;
             leaf_ops_ := leaf_ops_ self |},
          w).
Proof.
  intros Hlo Hhi Hn Heq. unfold EoeReceived. cbn [max_repeats_ repeat_count_ leaf_ops_].
  rewrite !int32_wrap_small by lia.
  rewrite Heq, Z.eqb_refl.
  destruct (Z.eqb_spec (max_repeats_ self) (max_repeats_ self - 1)) as [|_]; [lia|].
  by rewrite andb_false_r.
Qed.


Lemma flags_split (A : Type) (L : list A) (inf : bool) (c n j : Z) :
  0 ≤ j →
  (if inf && (c + 1 =? n - 1) then L else [])
  ++ (if inf && (c + 1 + 1 <=? n - 1) && (n - 1 <=? c + 1 + j) then L else [])
  = if inf && (c + 1 <=? n - 1) && (n - 1 <=? c + (j + 1)) then L else [].
Proof.
  intros Hj. destruct inf; cbn [andb]; [|done].
  destruct (Z.eqb_spec (c + 1) (n - 1)), (Z.leb_spec (c + 1 + 1) (n - 1)),
    (Z.leb_spec (n - 1) (c + 1 + j)), (Z.leb_spec (c + 1) (n - 1)),
    (Z.leb_spec (n - 1) (c + (j + 1)));
    cbn [andb app]; rewrite ?app_nil_r; try done; lia.
Qed.

(** The loop of [GetNextBuffer] swallows end-of-epoch buffers as long as the
    count is not complete, and hands over the first other buffer. *)
Lemma GetNextBuffer_while_swallow (b : DataBuffer) rest_c rest_r :
  eoe b = false →
  ∀ (eoes : list DataBuffer) (resets : list (Status * option OpState))
    (cur : DataBuffer) (more : list DataBuffer) (self : RepeatOp) (w : World) (pulls : nat),
    cur :: more = eoes ++ [b] →
    Forall (λ e, eoe e = true) eoes →
    length resets = length eoes →
    Forall reset_ok resets →
    is_idle (state_ self) = false →
    child_output w = (inr <$> more) ++ rest_c →
    reset_output w = resets ++ rest_r →
    (length (child_output w) ≤ pulls)%nat →
    - 2 ^ 31 ≤ repeat_count_ self →
    repeat_count_ self + Z.of_nat (length eoes) < 2 ^ 31 →
    - 2 ^ 31 < max_repeats_ self < 2 ^ 31 →
    max_repeats_ self ≤ repeat_count_ self
    ∨ repeat_count_ self + Z.of_nat (length eoes) < max_repeats_ self →
    GetNextBuffer_while kInfiniteRepeat pulls cur self w
    = Some (OK, Some b,
            {| state_ := foldl (λ st r, default st r.2) (state_ self) resets;
               child_ := child_ self;
               max_repeats_ := max_repeats_ self;
               repeat_count_ := repeat_count_ self + Z.of_nat (length eoes);
               leaf_ops_ := leaf_ops_ self |},
            {| child_output := rest_c;
               reset_output := rest_r;
               prepare_output := prepare_output w;
               repeat_stack := repeat_stack w;
               control_flags :=
                 control_flags w
                 ++ (if negb (max_repeats_ self =? kInfiniteRepeat)
                        && (repeat_count_ self + 1 <=? max_repeats_ self - 1)
                        && (max_repeats_ self - 1
                            <=? repeat_count_ self + Z.of_nat (length eoes))
                     then (λ op, (op, kDeOpLastRepeat)) <$> leaf_ops_ self
                     else []) |}).
Proof.
  intros Hb eoes.
  induction eoes as [|e eoes IH];
    intros resets cur more self w pulls Hcur Heoes Hlen Hres Hidle Hc Hr Hp Hlo Hhi Hn Hnever.
  - destruct resets; [|done]. injection Hcur as -> ->.
    cbn in Hc, Hr |- *.
    rewrite Z.add_0_r.
    replace (negb (max_repeats_ self =? kInfiniteRepeat)
             && (repeat_count_ self + 1 <=? max_repeats_ self - 1)
             && (max_repeats_ self - 1 <=? repeat_count_ self)) with false.
    2:{ destruct (Z.leb_spec (repeat_count_ self + 1) (max_repeats_ self - 1)),
          (Z.leb_spec (max_repeats_ self - 1) (repeat_count_ self));
          rewrite ?andb_false_r; try done; lia. }
    rewrite app_nil_r.
    destruct self, w; cbn in *; subst.
    destruct pulls; cbn; rewrite Hb; by destruct (eof b).
  - destruct resets as [|r resets]; [done|].
    cbn in Hcur. injection Hcur as -> ->.
    apply Forall_cons in Heoes as [He Heoes].
    apply Forall_cons in Hres as [[Hr1 Hr2] Hres].
    cbn [length] in Hlen, Hhi, Hnever. injection Hlen as Hlen.
    rewrite Nat2Z.inj_succ in Hhi, Hnever.
    destruct (eoes ++ [b]) as [|cur' more'] eqn:Hnext.
    { by destruct eoes. }
    rewrite fmap_cons in Hc. cbn [app] in Hc.
    destruct pulls as [|pulls]; [rewrite Hc in Hp; cbn in Hp; lia|].
    cbn [GetNextBuffer_while]. rewrite He.
    erewrite EoeReceived_continue; [|exact Hr|lia..].
    rewrite Hr1.
    assert (Hidle' : is_idle (default (state_ self) r.2) = false).
    { destruct r as [s [[]|]]; cbn in *; done. }
    cbn [state_]. rewrite Hidle'.
    unfold child_GetNextBuffer. cbn [child_output]. rewrite Hc.
    erewrite IH; [|reflexivity|done|done|done|done|cbn; reflexivity|cbn; reflexivity| |cbn; lia..].
    + cbn. rewrite Nat2Z.inj_succ. do 3 f_equal.
      * f_equal. lia.
      * rewrite <- app_assoc. f_equal. unfold Z.succ. apply flags_split. lia.
    + cbn. rewrite Hc in Hp. cbn in Hp. lia.
Qed.


(** The end-of-epoch buffer that completes the count is handed over, with
    the operator idle; the end-of-epoch buffers before it are swallowed. *)
Lemma GetNextBuffer_while_last (last : DataBuffer) rest_c rest_r :
  eoe last = true →
  ∀ (eoes : list DataBuffer) (resets : list (Status * option OpState))
    (cur : DataBuffer) (more : list DataBuffer) (self : RepeatOp) (w : World) (pulls : nat),
    cur :: more = eoes ++ [last] →
    Forall (λ e, eoe e = true) eoes →
    length resets = length eoes →
    Forall reset_ok resets →
    is_idle (state_ self) = false →
    child_output w = (inr <$> more) ++ rest_c →
    reset_output w = resets ++ rest_r →
    (length (child_output w) ≤ pulls)%nat →
    - 2 ^ 31 ≤ repeat_count_ self →
    max_repeats_ self < 2 ^ 31 →
    repeat_count_ self + Z.of_nat (length eoes) + 1 = max_repeats_ self →
    GetNextBuffer_while kInfiniteRepeat pulls cur self w
    = Some (OK, Some last,
            {| state_ := kDeOpIdle;
               child_ := child_ self;
               max_repeats_ := max_repeats_ self;
               repeat_count_ := max_repeats_ self;
               leaf_ops_ := leaf_ops_ self |},
            {| child_output := rest_c;
               reset_output := rest_r;
               prepare_output := prepare_output w;
               repeat_stack := repeat_stack w;
               control_flags :=
                 control_flags w
                 ++ (if negb (max_repeats_ self =? kInfiniteRepeat)
                        && (repeat_count_ self + 1 <=? max_repeats_ self - 1)
                        && (max_repeats_ self - 1
                            <=? repeat_count_ self + Z.of_nat (length eoes))
                     then (λ op, (op, kDeOpLastRepeat)) <$> leaf_ops_ self
                     else []) |}).
Proof.
  intros Hlast eoes.
  induction eoes as [|e eoes IH];
    intros resets cur more self w pulls Hcur Heoes Hlen Hres Hidle Hc Hr Hp Hlo Hn Hsum.
  - destruct resets; [|done]. injection Hcur as -> ->.
    cbn in Hc, Hr, Hsum |- *. rewrite Z.add_0_r in Hsum |- *.
    replace (negb (max_repeats_ self =? kInfiniteRepeat)
             && (repeat_count_ self + 1 <=? max_repeats_ self - 1)
             && (max_repeats_ self - 1 <=? repeat_count_ self)) with false.
    2:{ destruct (Z.leb_spec (repeat_count_ self + 1) (max_repeats_ self - 1));
          rewrite ?andb_false_r; try done; lia. }
    rewrite app_nil_r.
    assert (HE := EoeReceived_last self w).
    destruct pulls; cbn [GetNextBuffer_while]; rewrite Hlast, HE by lia; cbn;
      destruct w; cbn in *; by subst.
  - destruct resets as [|r resets]; [done|].
    cbn in Hcur. injection Hcur as -> ->.
    apply Forall_cons in Heoes as [He Heoes].
    apply Forall_cons in Hres as [[Hr1 Hr2] Hres].
    cbn [length] in Hlen, Hsum. injection Hlen as Hlen.
    rewrite Nat2Z.inj_succ in Hsum.
    destruct (eoes ++ [last]) as [|cur' more'] eqn:Hnext.
    { by destruct eoes. }
    rewrite fmap_cons in Hc. cbn [app] in Hc.
    destruct pulls as [|pulls]; [rewrite Hc in Hp; cbn in Hp; lia|].
    cbn [GetNextBuffer_while]. rewrite He.
    erewrite EoeReceived_continue; [|exact Hr|lia..].
    rewrite Hr1.
    assert (Hidle' : is_idle (default (state_ self) r.2) = false).
    { destruct r as [s [[]|]]; cbn in *; done. }
    cbn [state_]. rewrite Hidle'.
    unfold child_GetNextBuffer. cbn [child_output]. rewrite Hc.
    erewrite IH; [|reflexivity|done|done|done|done|cbn; reflexivity|cbn; reflexivity| |cbn; lia..].
    + cbn. rewrite Nat2Z.inj_succ. do 3 f_equal.
      rewrite <- app_assoc. f_equal. unfold Z.succ. apply flags_split. lia.
    + cbn. rewrite Hc in Hp. cbn in Hp. lia.
Qed.



Lemma stream_head (eoes : list DataBuffer) (b : DataBuffer)
    (rest : list (Error + DataBuffer)) :
  ∃ cur more,
    cur :: more = eoes ++ [b]
    ∧ (inr <$> eoes) ++ inr b :: rest
      = inr cur :: ((inr <$> more) ++ rest).
Proof.
  destruct eoes as [|e eoes].
  - by exists b, [].
  - exists e, (eoes ++ [b]). split; [done|].
    rewrite fmap_app. cbn. by rewrite <- app_assoc.
Qed.

Lemma GetNextBuffer_call_swallow (b : DataBuffer) eoes resets rest_c rest_r self w :
  child_ self ≠ [] →
  eoe b = false →
  Forall (λ e, eoe e = true) eoes →
  length resets = length eoes →
  Forall reset_ok resets →
  is_idle (state_ self) = false →
  child_output w = (inr <$> eoes) ++ inr b :: rest_c →
  reset_output w = resets ++ rest_r →
  - 2 ^ 31 ≤ repeat_count_ self →
  repeat_count_ self + Z.of_nat (length eoes) < 2 ^ 31 →
  - 2 ^ 31 < max_repeats_ self < 2 ^ 31 →
  max_repeats_ self ≤ repeat_count_ self
  ∨ repeat_count_ self + Z.of_nat (length eoes) < max_repeats_ self →
  GetNextBuffer kInfiniteRepeat self w
  = Some (OK, Some b,
          {| state_ := foldl (λ st r, default st r.2) (state_ self) resets;
             child_ := child_ self;
             max_repeats_ := max_repeats_ self;
             repeat_count_ := repeat_count_ self + Z.of_nat (length eoes);
             leaf_ops_ := leaf_ops_ self |},
          {| child_output := rest_c;
             reset_output := rest_r;
             prepare_output := prepare_output w;
             repeat_stack := repeat_stack w;
             control_flags :=
               control_flags w
               ++ (if negb (max_repeats_ self =? kInfiniteRepeat)
                      && (repeat_count_ self + 1 <=? max_repeats_ self - 1)
                      && (max_repeats_ self - 1
                          <=? repeat_count_ self + Z.of_nat (length eoes))
                   then (λ op, (op, kDeOpLastRepeat)) <$> leaf_ops_ self
                   else []) |}).
Proof.
  intros Hchild Hb Heoes Hlen Hres Hidle Hc Hr Hlo Hhi Hn Hnever.
  destruct (stream_head eoes b rest_c) as (cur & more & Hcur & Heq).
  rewrite Heq in Hc.
  unfold GetNextBuffer. destruct (child_ self) as [|c0 cs] eqn:Hch; [done|].
  unfold child_GetNextBuffer. rewrite Hc.
  erewrite (GetNextBuffer_while_swallow b rest_c rest_r Hb eoes resets cur more);
    [rewrite Hch; cbn; reflexivity|done..| | | | | |]; cbn; try done.
Qed.

Lemma GetNextBuffer_call_last (last : DataBuffer) eoes resets rest_c rest_r self w :
  child_ self ≠ [] →
  eoe last = true →
  Forall (λ e, eoe e = true) eoes →
  length resets = length eoes →
  Forall reset_ok resets →
  is_idle (state_ self) = false →
  child_output w = (inr <$> eoes) ++ inr last :: rest_c →
  reset_output w = resets ++ rest_r →
  - 2 ^ 31 ≤ repeat_count_ self →
  max_repeats_ self < 2 ^ 31 →
  repeat_count_ self + Z.of_nat (length eoes) + 1 = max_repeats_ self →
  GetNextBuffer kInfiniteRepeat self w
  = Some (OK, Some last,
          {| state_ := kDeOpIdle;
             child_ := child_ self;
             max_repeats_ := max_repeats_ self;
             repeat_count_ := max_repeats_ self;
             leaf_ops_ := leaf_ops_ self |},
          {| child_output := rest_c;
             reset_output := rest_r;
             prepare_output := prepare_output w;
             repeat_stack := repeat_stack w;
             control_flags :=
               control_flags w
               ++ (if negb (max_repeats_ self =? kInfiniteRepeat)
                      && (repeat_count_ self + 1 <=? max_repeats_ self - 1)
                      && (max_repeats_ self - 1
                          <=? repeat_count_ self + Z.of_nat (length eoes))
                   then (λ op, (op, kDeOpLastRepeat)) <$> leaf_ops_ self
                   else []) |}).
Proof.
  intros Hchild Hlast Heoes Hlen Hres Hidle Hc Hr Hlo Hn Hsum.
  destruct (stream_head eoes last rest_c) as (cur & more & Hcur & Heq).
  rewrite Heq in Hc.
  unfold GetNextBuffer. destruct (child_ self) as [|c0 cs] eqn:Hch; [done|].
  unfold child_GetNextBuffer. rewrite Hc.
  erewrite (GetNextBuffer_while_last last rest_c rest_r Hlast eoes resets cur more);
    [rewrite Hch; cbn; reflexivity|done..| | | | |]; cbn; try done.
Qed.


Lemma flagged_between_compose (A : Type) (L : list A) n c c1 c2 :
  c ≤ c1 ≤ c2 →
  (if flagged_between kInfiniteRepeat n c c1 then L else [])
  ++ (if flagged_between kInfiniteRepeat n c1 c2 then L else [])
  = if flagged_between kInfiniteRepeat n c c2 then L else [].
Proof.
  intros H. unfold flagged_between.
  destruct (negb (n =? kInfiniteRepeat)); cbn [andb]; [|done].
  destruct (Z.leb_spec (c + 1) (n - 1)), (Z.leb_spec (n - 1) c1),
    (Z.leb_spec (c1 + 1) (n - 1)), (Z.leb_spec (n - 1) c2);
    cbn [andb app]; rewrite ?app_nil_r; try done; lia.
Qed.

Lemma flagged_between_same n c : flagged_between kInfiniteRepeat n c c = false.
Proof.
  unfold flagged_between.
  destruct (Z.leb_spec (c + 1) (n - 1)), (Z.leb_spec (n - 1) c);
    rewrite ?andb_false_r; try done; lia.
Qed.

Lemma resets_keep_running (resets : list (Status * option OpState)) (st : OpState) :
  Forall reset_ok resets → is_idle st = false →
  is_idle (foldl (λ st r, default st r.2) st resets) = false.
Proof.
  revert st; induction resets as [|r resets IH]; intros st Hres Hst; [done|].
  apply Forall_cons in Hres as [[_ Hr] Hres]. cbn. apply IH; [done|].
  destruct r as [s [[]|]]; cbn in *; done.
Qed.

(** The three shapes of a child's stream: some ends of epoch to swallow and
    then a buffer to show; the ends of epoch up to the completing one; or
    nothing to show. *)
Lemma repeated_stream_cases (s : nat) (bufs : list DataBuffer) :
  (∃ eoes b rest,
      bufs = eoes ++ b :: rest ∧ Forall (λ e, eoe e = true) eoes ∧ eoe b = false
      ∧ (length eoes ≤ s)%nat
      ∧ repeated_stream s bufs = b :: repeated_stream (s - length eoes) rest)
  ∨ (∃ eoes last rest,
      bufs = eoes ++ last :: rest ∧ Forall (λ e, eoe e = true) eoes ∧ eoe last = true
      ∧ length eoes = s
      ∧ repeated_stream s bufs = [last])
  ∨ repeated_stream s bufs = [].
Proof.
  revert s; induction bufs as [|b bufs IH]; intros s; [by right; right|].
  cbn [repeated_stream]. destruct (eoe b) eqn:Hb.
  - destruct s as [|s].
    + right; left. exists [], b, bufs. by repeat split.
    + destruct (IH s) as [(eoes & b' & rest & -> & He & Hb' & Hl & Hv)
                         |[(eoes & l & rest & -> & He & Hl' & Hl & Hv)|Hv]].
      * left. exists (b :: eoes), b', rest.
        repeat split; [by constructor|done|cbn; lia|by rewrite Hv].
      * right; left. exists (b :: eoes), l, rest.
        repeat split; [by constructor|done|cbn; lia|done].
      * by right; right.
  - left. exists [], b, bufs. repeat split; [done|done|cbn; lia|].
    cbn. by rewrite Nat.sub_0_r.
Qed.

(** Pulling from a repeat shows the child's stream as [repeated_stream]
    describes it. *)
Lemma pull_repeated_stream (bufs : list DataBuffer) :
  ∀ (s : nat) (self : RepeatOp) (w : World) rest_c,
    child_ self ≠ [] →
    is_idle (state_ self) = false →
    child_output w = (inr <$> bufs) ++ rest_c →
    Forall reset_ok (reset_output w) →
    (s ≤ length (reset_output w))%nat →
    - 2 ^ 31 ≤ repeat_count_ self →
    max_repeats_ self < 2 ^ 31 →
    repeat_count_ self + Z.of_nat s + 1 = max_repeats_ self →
    ∃ self' w',
      pull kInfiniteRepeat (length (repeated_stream s bufs)) self w
      = Some (repeated_stream s bufs, self', w')
      ∧ child_ self' = child_ self
      ∧ max_repeats_ self' = max_repeats_ self
      ∧ leaf_ops_ self' = leaf_ops_ self
      ∧ repeat_count_ self ≤ repeat_count_ self' ≤ max_repeats_ self
      ∧ is_idle (state_ self') = (repeat_count_ self' =? max_repeats_ self)
      ∧ is_idle (state_ self') = from_option eoe false (last (repeated_stream s bufs))
      ∧ control_flags w'
        = control_flags w
          ++ (if flagged_between kInfiniteRepeat (max_repeats_ self)
                   (repeat_count_ self) (repeat_count_ self')
              then (λ op, (op, kDeOpLastRepeat)) <$> leaf_ops_ self
              else []).
Proof.
  induction bufs as [bufs IH] using (induction_ltof1 _ (@length DataBuffer)).
  unfold ltof in IH.
  intros s self w rest_c Hchild Hidle Hc Hres Hs Hlo Hn Hsum.
  destruct (repeated_stream_cases s bufs)
    as [(eoes & b & rest & -> & He & Hb & Hl & Hv)
       |[(eoes & l & rest & -> & He & Hl' & Hl & Hv)|Hv]].
  - rewrite Hv. cbn [length pull].
    rewrite fmap_app, fmap_cons, <- app_assoc in Hc. cbn [app] in Hc.
    pose proof (take_drop (length eoes) (reset_output w)) as Hsplit.
    assert (Hlen : length (take (length eoes) (reset_output w)) = length eoes)
      by (rewrite length_take; lia).
    rewrite <- Hsplit in Hres. apply Forall_app in Hres as [Hres1 Hres2].
    erewrite (GetNextBuffer_call_swallow b eoes _ _ _ self w);
      [|done|done|done|exact Hlen|exact Hres1|done|exact Hc|by rewrite Hsplit|lia..].
    assert (Hshort : (length rest < length (eoes ++ b :: rest))%nat)
      by (rewrite length_app; cbn; lia).
    match goal with
    | |- context [pull _ _ ?s1 ?w1] =>
        edestruct (IH rest Hshort (s - length eoes)%nat s1 w1 rest_c)
          as (self' & w' & Hpull & Hch & Hmax & Hleaf & Hcnt & Hst & Hend & Hfl)
    end.
    + done.
    + cbn. by apply resets_keep_running.
    + done.
    + done.
    + cbn. rewrite length_drop. lia.
    + cbn. lia.
    + cbn. lia.
    + cbn. lia.
    + rewrite Hpull. exists self', w'. cbn in *.
      split; [done|]. split; [done|]. split; [done|]. split; [done|].
      split; [lia|]. split; [done|]. split.
      { rewrite Hend. destruct (repeated_stream (s - length eoes) rest) as [|v vs] eqn:Hvs;
          [by cbn; rewrite Hb|by rewrite last_cons_cons]. }
      rewrite Hfl, <- app_assoc. f_equal.
      apply flagged_between_compose. lia.
  - rewrite Hv. cbn [length pull].
    rewrite fmap_app, fmap_cons, <- app_assoc in Hc. cbn [app] in Hc.
    pose proof (take_drop (length eoes) (reset_output w)) as Hsplit.
    assert (Hlen : length (take (length eoes) (reset_output w)) = length eoes)
      by (rewrite length_take; lia).
    rewrite <- Hsplit in Hres. apply Forall_app in Hres as [Hres1 Hres2].
    erewrite (GetNextBuffer_call_last l eoes _ _ _ self w);
      [|done|done|done|exact Hlen|exact Hres1|done|exact Hc|by rewrite Hsplit|lia..].
    eexists _, _. split; [reflexivity|]. cbn.
    split; [done|]. split; [done|]. split; [done|]. split; [lia|].
    split; [by rewrite Z.eqb_refl|]. split; [by rewrite Hl'|].
    f_equal. unfold flagged_between.
    replace (max_repeats_ self - 1 <=? repeat_count_ self + Z.of_nat (length eoes))
      with true by (symmetry; apply Z.leb_le; lia).
    replace (max_repeats_ self - 1 <=? max_repeats_ self)
      with true by (symmetry; apply Z.leb_le; lia).
    done.
  - rewrite Hv. exists self, w. cbn.
    split; [done|]. split; [done|]. split; [done|]. split; [done|].
    split; [lia|]. split; [|split; [done|]].
    + rewrite Hidle. symmetry. apply Z.eqb_neq. lia.
    + by rewrite flagged_between_same, app_nil_r.
Qed.


Lemma repeated_stream_data (s : nat) (data bufs : list DataBuffer) :
  Forall (λ d, eoe d = false) data →
  repeated_stream s (data ++ bufs) = data ++ repeated_stream s bufs.
Proof.
  induction 1 as [|d data Hd _ IH]; [done|]. cbn. by rewrite Hd, IH.
Qed.

(** [n + 1] epochs of the same data, each closed by an end-of-epoch buffer,
    show as the data [n + 1] times over and one end-of-epoch buffer. *)
Lemma repeated_stream_epochs (data : list DataBuffer) (e : DataBuffer) (n : nat) :
  Forall (λ d, eoe d = false) data → eoe e = true →
  repeated_stream n (concat (replicate (S n) (data ++ [e])))
  = concat (replicate (S n) data) ++ [e].
Proof.
  intros Hdata He. induction n as [|n IH].
  - cbn. rewrite !app_nil_r, repeated_stream_data by done. cbn. by rewrite He.
  - rewrite (replicate_S (S n) (data ++ [e])), (replicate_S (S n) data), !concat_cons.
    rewrite <- !app_assoc, repeated_stream_data by done.
    cbn [app repeated_stream]. by rewrite He, IH.
Qed.


(** What any [EoeReceived] call leaves alone. *)
Lemma EoeReceived_frame self w s self' w' :
  EoeReceived kInfiniteRepeat self w = Some (s, self', w') →
  child_ self' = child_ self
  ∧ max_repeats_ self' = max_repeats_ self
  ∧ leaf_ops_ self' = leaf_ops_ self
  ∧ repeat_count_ self' = int32_wrap (repeat_count_ self + 1)
  ∧ child_output w' = child_output w
  ∧ prepare_output w' = prepare_output w
  ∧ repeat_stack w' = repeat_stack w.
Proof.
  unfold EoeReceived, ResetSubtree. cbn [max_repeats_ repeat_count_ leaf_ops_].
  rewrite !set_control_flags_log.
  intros H. repeat case_match; simplify_eq; cbn in *; simplify_eq; done.
Qed.

Lemma GetNextBuffer_while_frame pulls :
  ∀ buf self w s pb self' w',
    GetNextBuffer_while kInfiniteRepeat pulls buf self w = Some (s, pb, self', w') →
    child_ self' = child_ self
    ∧ max_repeats_ self' = max_repeats_ self
    ∧ leaf_ops_ self' = leaf_ops_ self
    ∧ prepare_output w' = prepare_output w
    ∧ repeat_stack w' = repeat_stack w
    ∧ match s, pb with
      | OK, Some b =>
          (eoe b = true → state_ self' = kDeOpIdle)
          ∧ ((b = buf ∧ child_output w' = child_output w)
             ∨ ∃ used, child_output w = used ++ inr b :: child_output w')
      | Err _, None => ∃ used, child_output w = used ++ child_output w'
      | _, _ => False
      end.
Proof.
  induction pulls as [|pulls IH]; intros buf self w s pb self' w' H;
    cbn [GetNextBuffer_while] in H;
    destruct (eoe buf) eqn:Hbuf.
  - destruct (EoeReceived kInfiniteRepeat self w) as [[[s1 self1] w1]|] eqn:HE; [|done].
    apply EoeReceived_frame in HE as (? & ? & ? & _ & Hco & ? & ?).
    destruct s1; [|simplify_eq; repeat split; try congruence; by exists []].
    destruct (is_idle (state_ self1)) eqn:Hi; [|done]. simplify_eq.
    repeat split; try congruence.
    + intros _. by destruct (state_ self').
    + by left.
  - unfold EofReceived in H. destruct (eof buf); simplify_eq;
      (repeat split; [congruence|by left]).
  - destruct (EoeReceived kInfiniteRepeat self w) as [[[s1 self1] w1]|] eqn:HE; [|done].
    apply EoeReceived_frame in HE as (? & ? & ? & _ & Hco & ? & ?).
    destruct s1; [|simplify_eq; repeat split; try congruence; by exists []].
    destruct (is_idle (state_ self1)) eqn:Hi.
    { simplify_eq. repeat split; try congruence.
      - intros _. by destruct (state_ self').
      - by left. }
    unfold child_GetNextBuffer in H.
    destruct (child_output w1) as [|r rest] eqn:Hw1; [done|].
    destruct r as [e|buf'].
    { simplify_eq. cbn. repeat split; try congruence.
      exists [inl e]. by rewrite <- Hco. }
    apply IH in H as (? & ? & ? & ? & ? & Hres). cbn in *.
    repeat split; try congruence.
    destruct s as [|e]; destruct pb as [b|]; try done.
    + destruct Hres as [Hidle [[-> Hsame]|[used Hused]]]; split; try done.
      * right. exists []. by rewrite <- Hco, <- Hsame.
      * right. exists (inr buf' :: used). by rewrite <- Hco, Hused.
    + destruct Hres as [used Hused]. exists (inr buf' :: used).
      by rewrite <- Hco, Hused.
  - unfold EofReceived in H. destruct (eof buf); simplify_eq;
      (repeat split; [congruence|by left]).
Qed.


Lemma PrepareNodeAction_while_collects rest_s :
  ∀ (ops : list OpId) (cur : option OpId) (more : list (option OpId))
    (self : RepeatOp) (w : World) (pops : nat),
    cur :: more = (Some <$> ops) ++ [None] →
    repeat_stack w = more ++ rest_s →
    (length (repeat_stack w) ≤ pops)%nat →
    PrepareNodeAction_while pops cur self w
    = Some ({| state_ := state_ self;
               child_ := child_ self;
               max_repeats_ := max_repeats_ self;
               repeat_count_ := repeat_count_ self;
               leaf_ops_ := leaf_ops_ self ++ ops |},
            {| child_output := child_output w;
               reset_output := reset_output w;
               prepare_output := prepare_output w;
               repeat_stack := rest_s;
               control_flags :=
                 control_flags w
                 ++ (if max_repeats_ self =? 1
                     then (λ op, (op, kDeOpLastRepeat)) <$> ops
                     else []) |}).
Proof.
  induction ops as [|op ops IH]; intros cur more self w pops Hcur Hst Hp.
  - injection Hcur as -> ->. cbn in Hst.
    destruct pops; cbn; destruct self, w; cbn in *; subst;
      destruct (_ =? 1); cbn; by rewrite !app_nil_r.
  - cbn in Hcur. injection Hcur as -> ->.
    destruct ((Some <$> ops) ++ [None]) as [|cur' more'] eqn:Hnext.
    { by destruct ops. }
    destruct pops as [|pops]; [rewrite Hst in Hp; cbn in Hp; lia|].
    cbn [PrepareNodeAction_while]. unfold PopFromRepeatStack.
    replace (repeat_stack (if max_repeats_ self =? 1
                           then set_control_flag op kDeOpLastRepeat w else w))
      with (cur' :: more' ++ rest_s) by (by destruct (_ =? 1)).
    erewrite IH; [|reflexivity|cbn; reflexivity|cbn; rewrite Hst in Hp; cbn in Hp; lia].
    destruct (max_repeats_ self =? 1) eqn:Hone; cbn; rewrite ?Hone, <- ?app_assoc; done.
Qed.

(** X8. [Build] accepts exactly the counts that are at least
    [kInfiniteRepeat] and not 0 (with [kInfiniteRepeat = -1]: the positive
    counts and -1, as its message says); it then stores a new operator with
    that maximum and a repeat count of 0, and otherwise returns the one
    error of [SanityCheck] and leaves [*ptr] as it was. *)
Theorem Build_checks_count (count : Z) (ptr : option RepeatOp) :
  (SanityCheck kInfiniteRepeat (Builder_ctor count) = OK
   ↔ kInfiniteRepeat ≤ count ∧ count ≠ 0)
  ∧ (SanityCheck (-1) (Builder_ctor count) = OK ↔ 0 < count ∨ count = -1)
  ∧ (SanityCheck kInfiniteRepeat (Builder_ctor count) = OK
     ∨ SanityCheck kInfiniteRepeat (Builder_ctor count)
       = Err (Unexpected "Repeat count must be > 0 or -1."))
  ∧ (Build kInfiniteRepeat initial_state (Builder_ctor count) ptr).1
    = SanityCheck kInfiniteRepeat (Builder_ctor count)
  ∧ (Build kInfiniteRepeat initial_state (Builder_ctor count) ptr).2
    = (if IsOk (SanityCheck kInfiniteRepeat (Builder_ctor count))
       then Some {| state_ := initial_state; child_ := []; max_repeats_ := count;
                    repeat_count_ := 0; leaf_ops_ := [] |}
       else ptr).
Proof.
  unfold Build, SanityCheck, Builder_ctor. cbn [build_max_repeats_].
  destruct (Z.ltb_spec count kInfiniteRepeat), (Z.ltb_spec count (-1)),
    (Z.eqb_spec count 0); cbn; repeat split; try done; try lia; auto.
Qed.

(** X9. [PrepareNodeAction], once the base class has prepared, pops the
    repeat stack down to the first null pointer: the operators popped are
    appended to [leaf_ops_] in the order popped, each is flagged
    [kDeOpLastRepeat] exactly if the maximum is 1, and the rest of the stack
    stays. *)
Theorem PrepareNodeAction_collects_leaves (ops : list OpId) rest_p rest_s self w :
  prepare_output w = OK :: rest_p →
  repeat_stack w = (Some <$> ops) ++ None :: rest_s →
  PrepareNodeAction self w
  = Some (OK,
          {| state_ := state_ self;
             child_ := child_ self;
             max_repeats_ := max_repeats_ self;
             repeat_count_ := repeat_count_ self;
             leaf_ops_ := leaf_ops_ self ++ ops |},
          {| child_output := child_output w;
             reset_output := reset_output w;
             prepare_output := rest_p;
             repeat_stack := rest_s;
             control_flags :=
               control_flags w
               ++ (if max_repeats_ self =? 1
                   then (λ op, (op, kDeOpLastRepeat)) <$> ops
                   else []) |}).
Proof.
  intros Hp Hst. unfold PrepareNodeAction, PipelineOp_PrepareNodeAction, PopFromRepeatStack.
  rewrite Hp. cbn [repeat_stack]. rewrite Hst.
  assert (∃ cur more, cur :: more = (Some <$> ops) ++ [None]
                      ∧ (Some <$> ops) ++ None :: rest_s = cur :: more ++ rest_s)
    as (cur & more & Hcur & ->).
  { destruct ops as [|op ops]; [by exists None, []|].
    exists (Some op), ((Some <$> ops) ++ [None]). split; [done|].
    cbn. by rewrite <- app_assoc. }
  by erewrite (PrepareNodeAction_while_collects rest_s ops cur more).
Qed.


(** X11. The end-of-epoch buffer that completes the count is handed to the
    caller.  On an operator with a child that is not idle, whose 32-bit
    count is [j + 1] short of [max_repeats_]: if the child answers with [j]
    end-of-epoch buffers and then one more, and each of the [j] resets for
    the earlier ones returns [OK] without writing the idle state, then the
    call returns [OK] with that last end-of-epoch buffer, sets the operator
    idle with [repeat_count_ = max_repeats_], has used [j] resets and none
    for the last end of epoch, leaves the child's further output unread,
    and has flagged the leaves once exactly if the repeat is finite and
    [j >= 1]. *)
Theorem GetNextBuffer_completes_count (last : DataBuffer) eoes resets rest_c rest_r self w :
  child_ self ≠ [] →
  eoe last = true →
  Forall (λ e, eoe e = true) eoes →
  length resets = length eoes →
  Forall reset_ok resets →
  is_idle (state_ self) = false →
  child_output w = (inr <$> eoes) ++ inr last :: rest_c →
  reset_output w = resets ++ rest_r →
  - 2 ^ 31 ≤ repeat_count_ self →
  max_repeats_ self < 2 ^ 31 →
  repeat_count_ self + Z.of_nat (length eoes) + 1 = max_repeats_ self →
  GetNextBuffer kInfiniteRepeat self w
  = Some (OK, Some last,
          {| state_ := kDeOpIdle;
             child_ := child_ self;
             max_repeats_ := max_repeats_ self;
             repeat_count_ := max_repeats_ self;
             leaf_ops_ := leaf_ops_ self |},
          {| child_output := rest_c;
             reset_output := rest_r;
             prepare_output := prepare_output w;
             repeat_stack := repeat_stack w;
             control_flags :=
               control_flags w
               ++ (if flagged_between kInfiniteRepeat (max_repeats_ self)
                        (repeat_count_ self)
                        (repeat_count_ self + Z.of_nat (length eoes))
                   then (λ op, (op, kDeOpLastRepeat)) <$> leaf_ops_ self
                   else []) |}).
Proof. unfold flagged_between. apply GetNextBuffer_call_last. Qed.

(** X12. An infinite repeat swallows every end of epoch.  On an operator
    with a child that is not idle, with [max_repeats_ = kInfiniteRepeat]
    (above [-2^31]) and a count of at least [kInfiniteRepeat]: if the child
    answers with [j] end-of-epoch buffers and then a buffer [b] that is not
    one, the count does not overflow ([repeat_count_ + j < 2^31]), and each
    of the [j] resets returns [OK] without writing the idle state, then the
    call returns [OK] with [b], the count is up by [j], the operator is
    still not idle and no leaf has been flagged. *)
Theorem GetNextBuffer_infinite_repeat (b : DataBuffer) eoes resets rest_c rest_r self w :
  max_repeats_ self = kInfiniteRepeat →
  - 2 ^ 31 < kInfiniteRepeat ≤ repeat_count_ self →
  repeat_count_ self + Z.of_nat (length eoes) < 2 ^ 31 →
  child_ self ≠ [] →
  eoe b = false →
  Forall (λ e, eoe e = true) eoes →
  length resets = length eoes →
  Forall reset_ok resets →
  is_idle (state_ self) = false →
  child_output w = (inr <$> eoes) ++ inr b :: rest_c →
  reset_output w = resets ++ rest_r →
  ∃ self',
    GetNextBuffer kInfiniteRepeat self w
    = Some (OK, Some b, self',
            {| child_output := rest_c;
               reset_output := rest_r;
               prepare_output := prepare_output w;
               repeat_stack := repeat_stack w;
               control_flags := control_flags w |})
    ∧ is_idle (state_ self') = false
    ∧ max_repeats_ self' = kInfiniteRepeat
    ∧ repeat_count_ self' = repeat_count_ self + Z.of_nat (length eoes).
Proof.
  intros Hmax Hk Hhi Hchild Hb Heoes Hlen Hres Hidle Hc Hr.
  eexists. split.
  - erewrite GetNextBuffer_call_swallow; [|done..|lia|lia|lia|lia].
    rewrite Hmax, Z.eqb_refl. cbn [negb andb]. by rewrite app_nil_r.
  - cbn. split; [by apply resets_keep_running|done].
Qed.

(** X13. Whatever the collaborators answer, a [GetNextBuffer] call that
    returns never changes [child_], [max_repeats_] or [leaf_ops_]; with
    [OK] it hands over a buffer, the last one it took from the child, and
    this is an end-of-epoch buffer only if the operator is idle afterwards;
    with an error it hands over none. *)
Theorem GetNextBuffer_hands_over_child_buffers self w s pb self' w' :
  GetNextBuffer kInfiniteRepeat self w = Some (s, pb, self', w') →
  child_ self' = child_ self
  ∧ max_repeats_ self' = max_repeats_ self
  ∧ leaf_ops_ self' = leaf_ops_ self
  ∧ prepare_output w' = prepare_output w
  ∧ repeat_stack w' = repeat_stack w
  ∧ match s, pb with
    | OK, Some b =>
        (eoe b = true → state_ self' = kDeOpIdle)
        ∧ ∃ used, child_output w = used ++ inr b :: child_output w'
    | Err _, None => ∃ used, child_output w = used ++ child_output w'
    | _, _ => False
    end.
Proof.
  unfold GetNextBuffer, child_GetNextBuffer. intros H.
  destruct (child_ self) as [|c0 cs] eqn:Hch.
  { simplify_eq. repeat split; try done. by exists []. }
  destruct (child_output w) as [|r rest] eqn:Hw; [done|].
  destruct r as [e|buf].
  { simplify_eq. cbn. repeat split; try done. by exists [inl e]. }
  apply GetNextBuffer_while_frame in H as (? & ? & ? & ? & ? & Hres). cbn in *.
  repeat split; try congruence.
  destruct s as [|e]; destruct pb as [b|]; try done.
  - destruct Hres as [Hidle [[-> Hsame]|[used Hused]]]; split; try done.
    + exists []. by rewrite Hsame.
    + exists (inr buf :: used). by rewrite Hused.
  - destruct Hres as [used Hused]. exists (inr buf :: used). by rewrite Hused.
Qed.

(** X14. The error paths: a [GetNextBuffer] on an operator without a child
    returns the error of the source without calling anybody; an error of
    the child's first answer or of the base-class [PrepareNodeAction] is
    passed on as it is, before the operator has changed or the repeat stack
    has been popped; and running the operator as a functor is an error. *)
Theorem errors_are_passed_on self w e rest_c rest_p :
  (child_ self = [] →
   GetNextBuffer kInfiniteRepeat self w
   = Some (Err (Unexpected "RepeatOp can't be the leaf node."), None, self, w))
  ∧ (child_ self ≠ [] → child_output w = inl e :: rest_c →
     ∃ w', GetNextBuffer kInfiniteRepeat self w = Some (Err e, None, self, w')
           ∧ child_output w' = rest_c
           ∧ reset_output w' = reset_output w
           ∧ control_flags w' = control_flags w)
  ∧ (prepare_output w = Err e :: rest_p →
     ∃ w', PrepareNodeAction self w = Some (Err e, self, w')
           ∧ repeat_stack w' = repeat_stack w
           ∧ control_flags w' = control_flags w)
  ∧ IsOk functor_call = false.
Proof.
  repeat split.
  - intros Hch. unfold GetNextBuffer. by rewrite Hch.
  - intros Hch Hc. unfold GetNextBuffer, child_GetNextBuffer. rewrite Hc.
    destruct (child_ self); [done|]. by eexists.
  - intros Hp. unfold PrepareNodeAction, PipelineOp_PrepareNodeAction. rewrite Hp.
    by eexists.
Qed.

(** X15. Pulling from a repeat that has [s + 1] counts to go shows the
    child's buffers as [repeated_stream s] describes them: the first [s]
    ends of epoch dropped, the next one shown last.  This is for an operator
    with a child that is not idle at the start, with 32-bit counts, a child
    whose next answers are the buffers [bufs] (no error among them), and at
    least [s] reset answers left, every one of them [OK] and none writing
    the idle state.  The operator is idle afterwards exactly if that last
    end of epoch was shown, that is, if the count is complete, and the
    leaves have been flagged once exactly if the repeat is finite and the
    count has passed the last but one epoch. *)
Theorem pull_shows_repeated_stream (bufs : list DataBuffer) (s : nat)
    (self : RepeatOp) (w : World) rest_c :
  child_ self ≠ [] →
  is_idle (state_ self) = false →
  child_output w = (inr <$> bufs) ++ rest_c →
  Forall reset_ok (reset_output w) →
  (s ≤ length (reset_output w))%nat →
  - 2 ^ 31 ≤ repeat_count_ self →
  max_repeats_ self < 2 ^ 31 →
  repeat_count_ self + Z.of_nat s + 1 = max_repeats_ self →
  ∃ self' w',
    pull kInfiniteRepeat (length (repeated_stream s bufs)) self w
    = Some (repeated_stream s bufs, self', w')
    ∧ child_ self' = child_ self
    ∧ max_repeats_ self' = max_repeats_ self
    ∧ leaf_ops_ self' = leaf_ops_ self
    ∧ repeat_count_ self ≤ repeat_count_ self' ≤ max_repeats_ self
    ∧ is_idle (state_ self') = (repeat_count_ self' =? max_repeats_ self)
    ∧ is_idle (state_ self') = from_option eoe false (last (repeated_stream s bufs))
    ∧ control_flags w'
      = control_flags w
        ++ (if flagged_between kInfiniteRepeat (max_repeats_ self)
                 (repeat_count_ self) (repeat_count_ self')
            then (λ op, (op, kDeOpLastRepeat)) <$> leaf_ops_ self
            else []).
Proof. apply pull_repeated_stream. Qed.

(** X16. A repeat of [n] epochs ([1 <= n < 2^31]) with a child, not idle at
    the start and with a count of 0, over a child that delivers the same
    data (no end-of-epoch buffer in it) [n] times, each time followed by an
    end-of-epoch buffer, with at least [n - 1] reset answers left, every one
    of them [OK] and none writing the idle state: the parent's
    [n * |data| + 1] pulls return the data [n] times and then one
    end-of-epoch buffer; the operator is then idle with a count of [n], and
    the leaves have been flagged exactly once if [n >= 2] (and [n] is not
    [kInfiniteRepeat]), not at all if [n = 1]. *)
Theorem pull_repeats_epochs (data : list DataBuffer) (e : DataBuffer) (n : nat)
    (self : RepeatOp) (w : World) rest_c :
  (1 ≤ n)%nat → Z.of_nat n < 2 ^ 31 →
  Forall (λ d, eoe d = false) data → eoe e = true →
  child_ self ≠ [] →
  is_idle (state_ self) = false →
  repeat_count_ self = 0 →
  max_repeats_ self = Z.of_nat n →
  child_output w = (inr <$> concat (replicate n (data ++ [e]))) ++ rest_c →
  Forall reset_ok (reset_output w) →
  (n - 1 ≤ length (reset_output w))%nat →
  ∃ self' w',
    pull kInfiniteRepeat (n * length data + 1) self w
    = Some (concat (replicate n data) ++ [e], self', w')
    ∧ state_ self' = kDeOpIdle
    ∧ repeat_count_ self' = Z.of_nat n
    ∧ control_flags w'
      = control_flags w
        ++ (if negb (Z.of_nat n =? kInfiniteRepeat) && (2 <=? Z.of_nat n)
            then (λ op, (op, kDeOpLastRepeat)) <$> leaf_ops_ self
            else []).
Proof.
  intros Hn1 Hn Hdata He Hchild Hidle Hcnt Hmax Hc Hres Hlen.
  destruct n as [|m]; [lia|].
  destruct (pull_repeated_stream (concat (replicate (S m) (data ++ [e]))) m self w rest_c)
    as (self' & w' & Hpull & _ & Hmax' & _ & Hrange & Hst & Hend & Hfl);
    [done|done|done|done|lia|lia|lia|lia|].
  rewrite repeated_stream_epochs in Hpull, Hend by done.
  rewrite length_app, length_concat in Hpull.
  rewrite fmap_replicate, sum_list_replicate in Hpull. cbn [length] in Hpull.
  rewrite last_snoc in Hend. cbn in Hend. rewrite He in Hend.
  rewrite Hend in Hst. symmetry in Hst. apply Z.eqb_eq in Hst.
  exists self', w'. split; [exact Hpull|].
  split; [by destruct (state_ self')|]. split; [lia|].
  rewrite Hfl. f_equal. unfold flagged_between. rewrite Hst, Hmax, Hcnt.
  replace (Z.of_nat (S m) - 1 <=? Z.of_nat (S m)) with true
    by (symmetry; apply Z.leb_le; lia).
  rewrite andb_true_r. do 2 f_equal.
  destruct (Z.leb_spec (0 + 1) (Z.of_nat (S m) - 1)), (Z.leb_spec 2 (Z.of_nat (S m)));
    try done; lia.
Qed.

End Facts.

Lemma PrepareNodeAction_collects_leaves_witness :
  PrepareNodeAction
    {| state_ := kDeOpOther 0; child_ := []; max_repeats_ := 1; repeat_count_ := 0;
       leaf_ops_ := [] |}
    {| child_output := []; reset_output := []; prepare_output := [OK];
       repeat_stack := [Some 4%nat; Some 9%nat; None; Some 2%nat];
       control_flags := [] |}
  = Some (OK,
          {| state_ := kDeOpOther 0; child_ := []; max_repeats_ := 1; repeat_count_ := 0;
             leaf_ops_ := [4%nat; 9%nat] |},
          {| child_output := []; reset_output := []; prepare_output := [];
             repeat_stack := [Some 2%nat];
             control_flags := [(4%nat, kDeOpLastRepeat); (9%nat, kDeOpLastRepeat)] |}).
Proof.
  apply (PrepareNodeAction_collects_leaves [4%nat; 9%nat] [] [Some 2%nat]); concrete.
Defined.


Lemma GetNextBuffer_completes_count_witness :
  GetNextBuffer (-1)
    {| state_ := kDeOpOther 0; child_ := [5%nat]; max_repeats_ := 3; repeat_count_ := 1;
       leaf_ops_ := [8%nat] |}
    {| child_output := [inr (mkDataBuffer true false 0); inr (mkDataBuffer true false 1);
                        inr (mkDataBuffer false false 2)];
       reset_output := [(OK, None); (OK, None)];
       prepare_output := []; repeat_stack := []; control_flags := [] |}
  = Some (OK, Some (mkDataBuffer true false 1),
          {| state_ := kDeOpIdle; child_ := [5%nat]; max_repeats_ := 3;
             repeat_count_ := 3; leaf_ops_ := [8%nat] |},
          {| child_output := [inr (mkDataBuffer false false 2)];
             reset_output := [(OK, None)];
             prepare_output := []; repeat_stack := [];
             control_flags := [(8%nat, kDeOpLastRepeat)] |}).
Proof.
  apply (GetNextBuffer_completes_count (-1) (mkDataBuffer true false 1)
           [mkDataBuffer true false 0] [(OK, None)]
           [inr (mkDataBuffer false false 2)] [(OK, None)]); concrete.
Defined.

Lemma GetNextBuffer_infinite_repeat_witness :
  ∃ self',
    GetNextBuffer (-1)
      {| state_ := kDeOpOther 0; child_ := [5%nat]; max_repeats_ := -1; repeat_count_ := 7;
         leaf_ops_ := [8%nat] |}
      {| child_output := [inr (mkDataBuffer true false 0); inr (mkDataBuffer true false 1);
                          inr (mkDataBuffer false true 2)];
         reset_output := [(OK, None); (OK, None)];
         prepare_output := []; repeat_stack := []; control_flags := [] |}
    = Some (OK, Some (mkDataBuffer false true 2), self',
            {| child_output := []; reset_output := [];
               prepare_output := []; repeat_stack := []; control_flags := [] |})
    ∧ is_idle (state_ self') = false
    ∧ max_repeats_ self' = -1
    ∧ repeat_count_ self' = 7 + Z.of_nat 2.
Proof.
  apply (GetNextBuffer_infinite_repeat (-1) (mkDataBuffer false true 2)
           [mkDataBuffer true false 0; mkDataBuffer true false 1]
           [(OK, None); (OK, None)] [] []); concrete.
Defined.

Lemma GetNextBuffer_hands_over_child_buffers_witness :
  let self :=
    {| state_ := kDeOpOther 0; child_ := [5%nat]; max_repeats_ := 1; repeat_count_ := 0;
       leaf_ops_ := [8%nat] |} in
  let w :=
    {| child_output := [inr (mkDataBuffer true false 0); inr (mkDataBuffer false false 1)];
       reset_output := []; prepare_output := []; repeat_stack := [];
       control_flags := [] |} in
  ∃ self' w',
    GetNextBuffer (-1) self w = Some (OK, Some (mkDataBuffer true false 0), self', w')
    ∧ leaf_ops_ self' = leaf_ops_ self
    ∧ state_ self' = kDeOpIdle.
Proof.
  intros self w.
  assert (Hrun : GetNextBuffer (-1) self w
                 = Some (OK, Some (mkDataBuffer true false 0),
                         {| state_ := kDeOpIdle; child_ := [5%nat]; max_repeats_ := 1;
                            repeat_count_ := 1; leaf_ops_ := [8%nat] |},
                         {| child_output := [inr (mkDataBuffer false false 1)];
                            reset_output := []; prepare_output := []; repeat_stack := [];
                            control_flags := [] |})) by reflexivity.
  eexists _, _. split; [exact Hrun|].
  destruct (GetNextBuffer_hands_over_child_buffers (-1) _ _ _ _ _ _ Hrun)
    as (_ & _ & Hleaf & _ & _ & Hidle & _).
  split; [exact Hleaf|]. apply Hidle. reflexivity.
Defined.

Lemma errors_are_passed_on_witness :
  GetNextBuffer (-1)
    {| state_ := kDeOpOther 0; child_ := []; max_repeats_ := 2; repeat_count_ := 0;
       leaf_ops_ := [] |}
    {| child_output := [inr (mkDataBuffer false false 1)]; reset_output := [];
       prepare_output := []; repeat_stack := []; control_flags := [] |}
  = Some (Err (Unexpected "RepeatOp can't be the leaf node."), None,
          {| state_ := kDeOpOther 0; child_ := []; max_repeats_ := 2; repeat_count_ := 0;
             leaf_ops_ := [] |},
          {| child_output := [inr (mkDataBuffer false false 1)]; reset_output := [];
             prepare_output := []; repeat_stack := []; control_flags := [] |}).
Proof.
  apply (proj1 (errors_are_passed_on (-1) _ _ (Failed 0) [] [])). reflexivity.
Defined.

Lemma pull_shows_repeated_stream_witness :
  let self :=
    {| state_ := kDeOpOther 0; child_ := [5%nat]; max_repeats_ := 2; repeat_count_ := 0;
       leaf_ops_ := [8%nat] |} in
  let w :=
    {| child_output := [inr (mkDataBuffer false false 1); inr (mkDataBuffer true false 0);
                        inr (mkDataBuffer false false 2); inr (mkDataBuffer true false 0);
                        inr (mkDataBuffer false false 3)];
       reset_output := [(OK, None)]; prepare_output := []; repeat_stack := [];
       control_flags := [] |} in
  ∃ self' w',
    pull (-1) 3 self w
    = Some ([mkDataBuffer false false 1; mkDataBuffer false false 2;
             mkDataBuffer true false 0], self', w')
    ∧ is_idle (state_ self') = true
    ∧ control_flags w' = [(8%nat, kDeOpLastRepeat)].
Proof.
  intros self w.
  destruct (pull_shows_repeated_stream (-1)
              [mkDataBuffer false false 1; mkDataBuffer true false 0;
               mkDataBuffer false false 2; mkDataBuffer true false 0;
               mkDataBuffer false false 3] 1 self w [])
    as (self' & w' & Hpull & _ & _ & _ & Hcnt & Hidle & Hend & Hfl); try concrete.
  exists self', w'. split; [exact Hpull|]. split; [exact Hend|].
  rewrite Hfl. rewrite Hend in Hidle. symmetry in Hidle. apply Z.eqb_eq in Hidle.
  rewrite Hidle. reflexivity.
Defined.

Lemma pull_repeats_epochs_witness :
  let self :=
    {| state_ := kDeOpOther 0; child_ := [5%nat]; max_repeats_ := 3; repeat_count_ := 0;
       leaf_ops_ := [8%nat] |} in
  let d1 := mkDataBuffer false false 1 in
  let d2 := mkDataBuffer false false 2 in
  let e := mkDataBuffer true false 0 in
  let w :=
    {| child_output := inr <$> [d1; d2; e; d1; d2; e; d1; d2; e];
       reset_output := [(OK, None); (OK, Some (kDeOpOther 4))];
       prepare_output := []; repeat_stack := []; control_flags := [] |} in
  ∃ self' w',
    pull (-1) 7 self w = Some ([d1; d2; d1; d2; d1; d2; e], self', w')
    ∧ state_ self' = kDeOpIdle
    ∧ repeat_count_ self' = 3
    ∧ control_flags w' = [(8%nat, kDeOpLastRepeat)].
Proof.
  intros self d1 d2 e w.
  apply (pull_repeats_epochs (-1) [d1; d2] e 3 self w []); concrete.
Defined.

End RepeatOpFacts.
